(** * A shallow embedding of the golfscript-rs evaluator

    The evaluator of [src/src/lib.rs] (the sandboxed one, reached through
    [golfscript]) and the strict prototype of [src/src/main.rs] are
    translated function by function.  The modules [value], [util], [coerce],
    [parse] and [unescape] that both files import are not part of the
    sources at hand; their functions are modelled from the spec and marked
    so in their doc comments.

    Arbitrary-precision integers ([num::BigInt]) are [Z]; bytes are
    [Byte.byte]; [Vec<T>] is [list T]; a [HashMap] keyed by byte strings is
    a function into [option].  Panics of the Rust code ([unwrap], [expect],
    [panic!], index out of bounds, arithmetic overflow in a debug build)
    are the [Panic] outcome.  Rust's unbounded recursion and loops are
    given fuel; running out of it is the [OutOfFuel] outcome, which says
    nothing about the program. *)

From Stdlib Require Import String Ascii ZArith List Bool Lia.
From Stdlib Require Import Strings.Byte.
From Stdlib Require Import Sorting.Sorted Sorting.Permutation.
Import ListNotations.
Open Scope Z_scope.

(** ** Outcomes of evaluator steps *)

Inductive outcome (A : Type) : Type :=
| Done (a : A)
| Panic (msg : string)
| OutOfFuel.
Arguments Done {A} a.
Arguments Panic {A} msg.
Arguments OutOfFuel {A}.

Definition obind {A B} (m : outcome A) (k : A -> outcome B) : outcome B :=
  match m with
  | Done a => k a
  | Panic msg => Panic msg
  | OutOfFuel => OutOfFuel
  end.

Notation "x <- m ;; k" := (obind m (fun x => k))
  (at level 61, m at next level, right associativity).

(** Control of one iteration of a Rust [loop]/[while]: go on or [break]. *)
Inductive ctl (S : Type) : Type :=
| Continue (s : S)
| Break (s : S).
Arguments Continue {S} s.
Arguments Break {S} s.

(** ** Bytes and integers *)

Definition bz (b : byte) : Z := Z.of_N (Byte.to_N b).

(** [as u8]-style truncation of an integer to a byte. *)
Definition zb (z : Z) : byte :=
  match Byte.of_N (Z.to_N (z mod 256)) with
  | Some b => b
  | None => Byte.x00
  end.

Definition bytes (s : string) : list byte := list_byte_of_string s.

(** Rust's [u64]/[usize] range. *)
Definition u64_max : Z := 18446744073709551615.

(** [to_usize], [to_u32], [to_i32], [to_u8] of [num::ToPrimitive]. *)
Definition to_usize (z : Z) : option nat :=
  if (0 <=? z) && (z <=? u64_max) then Some (Z.to_nat z) else None.
Definition to_u32 (z : Z) : option Z :=
  if (0 <=? z) && (z <=? 4294967295) then Some z else None.
Definition to_i32 (z : Z) : option Z :=
  if (-2147483648 <=? z) && (z <=? 2147483647) then Some z else None.
Definition to_u8 (z : Z) : option byte :=
  if (0 <=? z) && (z <=? 255) then Some (zb z) else None.

Fixpoint digits_N (fuel : nat) (n : N) (acc : list byte) : list byte :=
  match fuel with
  | O => acc
  | S f =>
      let acc' := zb (48 + Z.of_N (n mod 10)) :: acc in
      if (n / 10 =? 0)%N then acc' else digits_N f (n / 10)%N acc'
  end.

(** Signed decimal rendering of a [BigInt] ([to_string]). *)
Definition show_Z (z : Z) : list byte :=
  let d := digits_N (S (N.size_nat (Z.abs_N z))) (Z.abs_N z) [] in
  if z <? 0 then "-"%byte :: d else d.

Definition is_digit (b : byte) : bool := (48 <=? bz b) && (bz b <=? 57).

Fixpoint parse_digits (bs : list byte) (acc : Z) : option Z :=
  match bs with
  | [] => Some acc
  | b :: rest => if is_digit b then parse_digits rest (acc * 10 + (bz b - 48)) else None
  end.

(** [BigInt::parse_bytes(bs, 10)]: an optional sign, then one or more
    decimal digits. *)
Definition parse_bytes10 (bs : list byte) : option Z :=
  match bs with
  | "-"%byte :: ((_ :: _) as ds) => option_map Z.opp (parse_digits ds 0)
  | "+"%byte :: ((_ :: _) as ds) => parse_digits ds 0
  | _ :: _ => parse_digits bs 0
  | [] => None
  end.

Fixpoint bytes_eqb (a b : list byte) : bool :=
  match a, b with
  | [], [] => true
  | x :: a', y :: b' => Byte.eqb x y && bytes_eqb a' b'
  | _, _ => false
  end.

Fixpoint bytes_cmp (a b : list byte) : comparison :=
  match a, b with
  | [], [] => Eq
  | [], _ => Lt
  | _, [] => Gt
  | x :: a', y :: b' =>
      match Z.compare (bz x) (bz y) with
      | Eq => bytes_cmp a' b'
      | c => c
      end
  end.

(** ** Values (module [value], modelled from the spec, section 3 and 4.1) *)

#[local] Set Warnings "-register-all".
Inductive Gval : Type :=
| Int (n : Z)
| Arr (xs : list Gval)
| Str (bs : list byte)
| Blk (bs : list byte).

Module Value.

(** Modelled from the spec: kind rank [Int < Arr < Str < Blk]. *)
Definition rank (v : Gval) : Z :=
  match v with Int _ => 0 | Arr _ => 1 | Str _ => 2 | Blk _ => 3 end.

(** Modelled from the spec: [Int 0] and empty sequences are falsey. *)
Definition falsey (v : Gval) : bool :=
  match v with
  | Int n => n =? 0
  | Arr xs => match xs with [] => true | _ => false end
  | Str bs | Blk bs => match bs with [] => true | _ => false end
  end.

Definition truthy (v : Gval) : bool := negb (falsey v).

(** Modelled from the spec: [Gval::bool], a boolean as [Int 1]/[Int 0]. *)
Definition gbool (b : bool) : Gval := Int (if b then 1 else 0).

(** Modelled from the spec: structural equality within a kind; [Str] and
    [Blk] are equal iff their bytes are. *)
Fixpoint eqb (a b : Gval) : bool :=
  match a, b with
  | Int x, Int y => Z.eqb x y
  | Arr xs, Arr ys =>
      (fix go (xs ys : list Gval) : bool :=
         match xs, ys with
         | [], [] => true
         | x :: xs', y :: ys' => eqb x y && go xs' ys'
         | _, _ => false
         end) xs ys
  | (Str x | Blk x), (Str y | Blk y) => bytes_eqb x y
  | _, _ => false
  end.

(** Modelled from the spec: total order; natural order within a kind,
    lexicographic on sequences ([Str] and [Blk] compared as strings),
    otherwise by kind rank. *)
Fixpoint cmp (a b : Gval) : comparison :=
  match a, b with
  | Int x, Int y => Z.compare x y
  | Arr xs, Arr ys =>
      (fix go (xs ys : list Gval) : comparison :=
         match xs, ys with
         | [], [] => Eq
         | [], _ => Lt
         | _, [] => Gt
         | x :: xs', y :: ys' =>
             match cmp x y with Eq => go xs' ys' | c => c end
         end) xs ys
  | (Str x | Blk x), (Str y | Blk y) => bytes_cmp x y
  | _, _ => Z.compare (rank a) (rank b)
  end.

(** Modelled from the spec: [to_gs], the unadorned rendering. *)
Fixpoint to_gs (v : Gval) : list byte :=
  match v with
  | Int n => show_Z n
  | Arr xs => flat_map to_gs xs
  | Str bs => bs
  | Blk bs => "{"%byte :: bs ++ ["}"%byte]
  end.

Definition escape_byte (b : byte) : list byte :=
  if Byte.eqb b Byte.x22 then [Byte.x5c; Byte.x22]
  else if Byte.eqb b Byte.x5c then [Byte.x5c; Byte.x5c]
  else [b].

Fixpoint intercalate (sep : list byte) (xs : list (list byte)) : list byte :=
  match xs with
  | [] => []
  | [x] => x
  | x :: xs' => x ++ sep ++ intercalate sep xs'
  end.

(** Modelled from the spec: [inspect], the round-trippable rendering. *)
Fixpoint inspect (v : Gval) : list byte :=
  match v with
  | Int n => show_Z n
  | Arr xs => "["%byte :: intercalate [" "%byte] (map inspect xs) ++ ["]"%byte]
  | Str bs => Byte.x22 :: flat_map escape_byte bs ++ [Byte.x22]
  | Blk bs => "{"%byte :: bs ++ ["}"%byte]
  end.

(** Modelled from the spec: [factory], an empty value of the same kind. *)
Definition factory (v : Gval) : Gval :=
  match v with
  | Int _ => Int 0
  | Arr _ => Arr []
  | Str _ => Str []
  | Blk _ => Blk []
  end.

(** Modelled from the spec: [as_arr], the elements of a value viewed as a
    sequence (bytes become [Int]s; an [Int] is a one-element sequence). *)
Definition as_arr (v : Gval) : list Gval :=
  match v with
  | Int n => [Int n]
  | Arr xs => xs
  | Str bs | Blk bs => map (fun b => Int (bz b)) bs
  end.

(** Modelled from the spec: [unwrap_arr] and [unwrap_int] panic on any
    other kind. *)
Definition unwrap_arr (v : Gval) : outcome (list Gval) :=
  match v with Arr xs => Done xs | _ => Panic "unwrap_arr" end.
Definition unwrap_int (v : Gval) : outcome Z :=
  match v with Int n => Done n | _ => Panic "unwrap_int" end.

(** Modelled from the spec: [Gval::push], appending one element to a
    sequence value (used by [zip]). *)
Definition gpush (v e : Gval) : outcome Gval :=
  match v, e with
  | Arr xs, _ => Done (Arr (xs ++ [e]))
  | Str bs, Int n => Done (Str (bs ++ [zb n]))
  | Blk bs, Int n => Done (Blk (bs ++ [zb n]))
  | _, _ => Panic "push"
  end.

(** Modelled from the spec, section 4.2: [coerce]. *)
Inductive Coerced : Type :=
| Ints (x y : Z)
| Arrs (x y : list Gval)
| Strs (x y : list byte)
| Blks (x y : list byte).

Definition to_arr (v : Gval) : list Gval :=
  match v with Int n => [Int n] | Arr xs => xs | Str bs | Blk bs => map (fun b => Int (bz b)) bs end.
Definition to_str (v : Gval) : list byte :=
  match v with Int n => show_Z n | Arr xs => flat_map to_gs xs | Str bs | Blk bs => bs end.

Definition coerce (a b : Gval) : Coerced :=
  match a, b with
  | Int x, Int y => Ints x y
  | _, _ =>
      let r := Z.max (rank a) (rank b) in
      if r =? 1 then Arrs (to_arr a) (to_arr b)
      else if r =? 2 then Strs (to_str a) (to_str b)
      else Blks (to_str a) (to_str b)
  end.

(** Modelled from the spec: [plus], integer sum or coerced concatenation. *)
Definition plus (a b : Gval) : Gval :=
  match coerce a b with
  | Ints x y => Int (x + y)
  | Arrs x y => Arr (x ++ y)
  | Strs x y => Str (x ++ y)
  | Blks x y => Blk (x ++ y)
  end.

(** Modelled from the spec: [join], the elements of [a] separated by [sep];
    the result has the kind of the separator. *)
Definition join (a : list Gval) (sep : Gval) : Gval :=
  match sep with
  | Arr s =>
      Arr ((fix go (xs : list Gval) : list Gval :=
              match xs with
              | [] => []
              | [x] => to_arr x
              | x :: xs' => to_arr x ++ s ++ go xs'
              end) a)
  | Str s | Blk s => Str (intercalate s (map to_gs a))
  | Int _ => Arr a
  end.

End Value.

(** ** Sequence utilities (module [util], modelled from the spec, 4.3) *)

Module Util.
Section Seq.
Variable T : Type.
Variable teq : T -> T -> bool.

Definition mem (x : T) (l : list T) : bool := existsb (teq x) l.

(** Modelled from the spec: [set_subtract], [set_or], [set_and],
    [set_xor]. *)
Definition set_subtract (a b : list T) : list T := filter (fun x => negb (mem x b)) a.
Definition set_or (a b : list T) : list T := a ++ filter (fun y => negb (mem y a)) b.
Definition set_and (a b : list T) : list T := filter (fun x => mem x b) a.
Definition set_xor (a b : list T) : list T :=
  let n := set_and a b in filter (fun x => negb (mem x n)) (set_or a b).

(** Modelled from the spec: [repeat], empty for non-positive counts. *)
Definition repeat (a : list T) (n : Z) : list T :=
  if n <=? 0 then [] else List.concat (List.repeat a (Z.to_nat n)).

Fixpoint chunks (fuel : nat) (k : nat) (a : list T) : list (list T) :=
  match fuel with
  | O => []
  | S f =>
      match a with
      | [] => []
      | _ => firstn k a :: chunks f k (skipn k a)
      end
  end.

(** Modelled from the spec: [chunk(a, n)], consecutive pieces of size [n]
    (the reverse of [a] in pieces of [|n|] when [n < 0]; [a] itself when
    [n = 0]).  The function takes no loop cap: it is called as
    [chunk(&mut a, n)] in [Gs::slash]. *)
Definition chunk (a : list T) (n : Z) : list (list T) :=
  if 0 <? n then chunks (length a) (Z.to_nat n) a
  else if n <? 0 then chunks (length a) (Z.to_nat (- n)) (rev a)
  else [a].

Fixpoint every_nth_from (k i : nat) (a : list T) : list T :=
  match a with
  | [] => []
  | x :: a' => if Nat.eqb (i mod k) 0 then x :: every_nth_from k (S i) a'
               else every_nth_from k (S i) a'
  end.

(** Modelled from the spec: [every_nth(a, n)]. *)
Definition every_nth (a : list T) (n : Z) : list T :=
  if 0 <? n then every_nth_from (Z.to_nat n) 0 a
  else if n <? 0 then every_nth_from (Z.to_nat (- n)) 0 (rev a)
  else a.

Fixpoint is_prefix (p a : list T) : bool :=
  match p, a with
  | [], _ => true
  | x :: p', y :: a' => teq x y && is_prefix p' a'
  | _ :: _, [] => false
  end.

Fixpoint split_go (fuel : nat) (sep a cur : list T) (acc : list (list T)) : list (list T) :=
  match fuel with
  | O => rev (rev cur :: acc)
  | S f =>
      match a with
      | [] => rev (rev cur :: acc)
      | x :: a' =>
          if is_prefix sep a then split_go f sep (skipn (length sep) a) [] (rev cur :: acc)
          else split_go f sep a' (x :: cur) acc
      end
  end.

(** Modelled from the spec: [split(a, sep, clean)] at the non-overlapping
    occurrences of a non-empty [sep]; [clean] drops empty pieces. *)
Definition split (a sep : list T) (clean : bool) : list (list T) :=
  let r := split_go (length a) sep a [] [] in
  if clean then filter (fun x => match x with [] => false | _ => true end) r else r.

(** Modelled from the spec: [index(a, i)], [a[i mod len]], [None] on an
    empty [a]. *)
Definition index (a : list T) (i : Z) : option T :=
  match a with
  | [] => None
  | _ => nth_error a (Z.to_nat (i mod Z.of_nat (length a)))
  end.

(** Modelled from the spec: [slice(ord, a, i)], the first [i] elements
    ([Lt]) or the rest ([Gt]), [i] clamped (negative [i] counted from the
    end). *)
Definition slice (o : comparison) (a : list T) (i : Z) : list T :=
  let len := Z.of_nat (length a) in
  let j := Z.to_nat (if i <? 0 then Z.max 0 (len + i) else Z.min i len) in
  match o with
  | Lt => firstn j a
  | Gt => skipn j a
  | Eq => []
  end.

Fixpoint string_index_from (pos : Z) (h n : list T) : Z :=
  if is_prefix n h then pos
  else match h with
       | [] => -1
       | _ :: h' => string_index_from (pos + 1) h' n
       end.

(** Modelled from the spec: [string_index(h, n)], first index or -1. *)
Definition string_index (h n : list T) : Z := string_index_from 0 h n.

Variable tcmp : T -> T -> comparison.

Fixpoint insert_sorted (x : T) (l : list T) : list T :=
  match l with
  | [] => [x]
  | y :: l' => match tcmp x y with Lt => x :: l | _ => y :: insert_sorted x l' end
  end.

(** [slice::sort]/[sort_by]: a stable sort. *)
Definition sort (l : list T) : list T := fold_left (fun acc x => insert_sorted x acc) l [].

End Seq.
Arguments set_subtract {T} teq a b.
Arguments set_or {T} teq a b.
Arguments set_and {T} teq a b.
Arguments set_xor {T} teq a b.
Arguments repeat {T} a n.
Arguments chunk {T} a n.
Arguments every_nth {T} a n.
Arguments split {T} teq a sep clean.
Arguments index {T} a i.
Arguments slice {T} o a i.
Arguments string_index {T} teq h n.
Arguments sort {T} tcmp l.

(** Modelled from the spec: [flatten] of module [coerce], the bytes of
    the [to_gs] renderings of the elements. *)
Definition flatten (r : list Gval) : list byte := flat_map Value.to_gs r.

End Util.

(** ** String escapes (module [unescape], modelled from the spec, section 6) *)

Fixpoint unescape (bs : list byte) (single : bool) : list byte :=
  match bs with
  | b :: ((c :: rest) as tl) =>
      if Byte.eqb b Byte.x5c then
        if Byte.eqb c Byte.x5c then Byte.x5c :: unescape rest single
        else if single then
          if Byte.eqb c "'"%byte then "'"%byte :: unescape rest single
          else b :: unescape tl single
        else if Byte.eqb c Byte.x22 then Byte.x22 :: unescape rest single
        else if Byte.eqb c "n"%byte then Byte.x0a :: unescape rest single
        else if Byte.eqb c "t"%byte then Byte.x09 :: unescape rest single
        else if Byte.eqb c "r"%byte then Byte.x0d :: unescape rest single
        else if Byte.eqb c "0"%byte then Byte.x00 :: unescape rest single
        else b :: unescape tl single
      else b :: unescape tl single
  | _ => bs
  end.

(** ** Tokens (module [parse], modelled from the spec, section 6) *)

#[local] Set Warnings "-register-all".
Inductive Gtoken : Type :=
| IntLiteral (bs : list byte)
| SingleQuotedString (bs : list byte)
| DoubleQuotedString (bs : list byte)
| Symbol (bs : list byte)
| Block (inner : list Gtoken) (src : list byte)
| Comment (bs : list byte).

Module Parse.

(** Modelled from the spec: [lexeme], the bytes a token was read from
    (for a block, the source bytes it carries). *)
Definition lexeme (t : Gtoken) : list byte :=
  match t with
  | IntLiteral bs | SingleQuotedString bs | DoubleQuotedString bs
  | Symbol bs | Comment bs => bs
  | Block _ src => src
  end.

Definition is_alpha (b : byte) : bool :=
  ((65 <=? bz b) && (bz b <=? 90)) || ((97 <=? bz b) && (bz b <=? 122)) || (bz b =? 95).
Definition is_alnum (b : byte) : bool := is_alpha b || is_digit b.
Definition is_space (b : byte) : bool :=
  (bz b =? 32) || (bz b =? 9) || (bz b =? 10) || (bz b =? 13).

Fixpoint take_while (p : byte -> bool) (l : list byte) : list byte * list byte :=
  match l with
  | b :: tl => if p b then let (x, r) := take_while p tl in (b :: x, r) else ([], l)
  | [] => ([], [])
  end.

(** The body of a quoted string up to its unescaped closing quote [q],
    escapes still encoded, and the bytes after the quote. *)
Fixpoint scan_quoted (q : byte) (l : list byte) : option (list byte * list byte) :=
  match l with
  | [] => None
  | b :: tl =>
      if Byte.eqb b q then Some ([], tl)
      else if Byte.eqb b Byte.x5c then
        match tl with
        | c :: tl' => option_map (fun '(body, r) => (b :: c :: body, r)) (scan_quoted q tl')
        | [] => None
        end
      else option_map (fun '(body, r) => (b :: body, r)) (scan_quoted q tl)
  end.

Definition cons_tok (t : Gtoken) (p : list Gtoken * list byte) : list Gtoken * list byte :=
  (t :: fst p, snd p).

(** Modelled from the spec: the tokenizer, returning the tokens and the
    bytes it could not consume (a stray [}], an unterminated string or
    block).  White space separates tokens. *)
Fixpoint tokenize (fuel : nat) (bs : list byte) : list Gtoken * list byte :=
  match fuel with
  | O => ([], bs)
  | S f =>
      match bs with
      | [] => ([], [])
      | b :: tl =>
          if is_space b then tokenize f tl
          else if Byte.eqb b "}"%byte then ([], bs)
          else if Byte.eqb b "#"%byte then
            let (c, r) := take_while (fun x => negb (Byte.eqb x Byte.x0a)) tl in
            cons_tok (Comment (b :: c)) (tokenize f r)
          else if is_digit b then
            let (ds, r) := take_while is_digit bs in
            cons_tok (IntLiteral ds) (tokenize f r)
          else if Byte.eqb b "-"%byte && match tl with c :: _ => is_digit c | [] => false end then
            let (ds, r) := take_while is_digit tl in
            cons_tok (IntLiteral (b :: ds)) (tokenize f r)
          else if is_alpha b then
            let (w, r) := take_while is_alnum tl in
            cons_tok (Symbol (b :: w)) (tokenize f r)
          else if Byte.eqb b "'"%byte then
            match scan_quoted b tl with
            | Some (body, r) => cons_tok (SingleQuotedString body) (tokenize f r)
            | None => ([], bs)
            end
          else if Byte.eqb b Byte.x22 then
            match scan_quoted b tl with
            | Some (body, r) => cons_tok (DoubleQuotedString body) (tokenize f r)
            | None => ([], bs)
            end
          else if Byte.eqb b "{"%byte then
            let (inner, r) := tokenize f tl in
            match r with
            | c :: r' =>
                if Byte.eqb c "}"%byte then
                  cons_tok (Block inner (firstn (length tl - length r) tl)) (tokenize f r')
                else ([], bs)
            | [] => ([], bs)
            end
          else cons_tok (Symbol [b]) (tokenize f tl)
      end
  end.

(** Modelled from the spec: [parse_code], [(remaining_bytes, tokens)]. *)
Definition parse_code (bs : list byte) : list byte * list Gtoken :=
  let (ts, rest) := tokenize (S (length bs)) bs in (rest, ts).

End Parse.

(** ** [String::from_utf8_lossy]

    The output buffer of [Gs] is a Rust [String]; it is kept as its UTF-8
    bytes.  [from_utf8_lossy] replaces each maximal invalid subpart by
    U+FFFD (bytes EF BF BD). *)

Definition replacement_char : list byte := [Byte.xef; Byte.xbf; Byte.xbd].

Fixpoint count_cont (n : nat) (lo hi : Z) (l : list byte) : nat :=
  match n, l with
  | S n', c :: l' =>
      if (lo <=? bz c) && (bz c <=? hi) then S (count_cont n' 128 191 l') else O
  | _, _ => O
  end.

(** Continuation bytes expected after a leading byte, and the admissible
    range of the first of them. *)
Definition utf8_shape (b : Z) : option (nat * Z * Z) :=
  if (194 <=? b) && (b <=? 223) then Some (1%nat, 128, 191)
  else if b =? 224 then Some (2%nat, 160, 191)
  else if (225 <=? b) && (b <=? 236) then Some (2%nat, 128, 191)
  else if b =? 237 then Some (2%nat, 128, 159)
  else if (238 <=? b) && (b <=? 239) then Some (2%nat, 128, 191)
  else if b =? 240 then Some (3%nat, 144, 191)
  else if (241 <=? b) && (b <=? 243) then Some (3%nat, 128, 191)
  else if b =? 244 then Some (3%nat, 128, 143)
  else None.

Fixpoint utf8_lossy_go (fuel : nat) (l : list byte) : list byte :=
  match fuel with
  | O => l
  | S f =>
      match l with
      | [] => []
      | b :: rest =>
          if bz b <? 128 then b :: utf8_lossy_go f rest
          else match utf8_shape (bz b) with
               | None => replacement_char ++ utf8_lossy_go f rest
               | Some (n, lo, hi) =>
                   let k := count_cont n lo hi rest in
                   if Nat.eqb k n then b :: firstn k rest ++ utf8_lossy_go f (skipn k rest)
                   else replacement_char ++ utf8_lossy_go f (skipn k rest)
               end
      end
  end.

Definition from_utf8_lossy (l : list byte) : list byte := utf8_lossy_go (length l) l.

(** ** Small vector operations *)

Fixpoint list_set {A} (l : list A) (i : nat) (v : A) : list A :=
  match l, i with
  | [], _ => []
  | _ :: l', O => v :: l'
  | x :: l', S i' => x :: list_set l' i' v
  end.

(** [Vec::pop]. *)
Definition vec_pop {A} (l : list A) : option (list A * A) :=
  match rev l with
  | [] => None
  | x :: r => Some (rev r, x)
  end.

(** [Vec::last]. *)
Definition vec_last {A} (l : list A) : option A :=
  match rev l with [] => None | x :: _ => Some x end.

(** The panic message of a slice range whose start exceeds the length. *)
Definition slice_start_index_len_fail (start len : nat) : string :=
  String.append "range start index "
    (String.append (string_of_list_byte (show_Z (Z.of_nat start)))
      (String.append " out of range for slice of length "
        (string_of_list_byte (show_Z (Z.of_nat len))))).

(** [stack.drain(start..)]: panics when [start] exceeds the length. *)
Definition drain_from {A} (l : list A) (start : nat) : outcome (list A * list A) :=
  if Nat.leb start (length l) then Done (firstn start l, skipn start l)
  else Panic (slice_start_index_len_fail start (length l)).

Definition empty_arr : Gval := Arr [].

(** * The sandboxed evaluator of [src/src/lib.rs] *)

Module Sandbox.

Record Gs : Type := mkGs {
  stack : list Gval;
  vars : list byte -> option Gval;
  lb : list nat;
  rng_state : Z;
  stable : bool;
  output : list byte
}.

Definition set_stack (s : Gs) (st : list Gval) : Gs :=
  mkGs st (vars s) (lb s) (rng_state s) (stable s) (output s).
Definition set_vars (s : Gs) (v : list byte -> option Gval) : Gs :=
  mkGs (stack s) v (lb s) (rng_state s) (stable s) (output s).
Definition set_lb (s : Gs) (l : list nat) : Gs :=
  mkGs (stack s) (vars s) l (rng_state s) (stable s) (output s).
Definition set_rng (s : Gs) (r : Z) : Gs :=
  mkGs (stack s) (vars s) (lb s) r (stable s) (output s).
Definition set_unstable (s : Gs) : Gs :=
  mkGs (stack s) (vars s) (lb s) (rng_state s) false (output s).
Definition set_output (s : Gs) (o : list byte) : Gs :=
  mkGs (stack s) (vars s) (lb s) (rng_state s) (stable s) o.

(** [HashMap::insert] on the variable map. *)
Definition insert_var (m : list byte -> option Gval) (k : list byte) (v : Gval)
  : list byte -> option Gval :=
  fun k' => if bytes_eqb k' k then Some v else m k'.

(** [Gs::new()]; [max_loops] is the parameter of the section below. *)
Definition new : Gs := mkGs [] (fun _ => None) [] 123456789 true [].

(** [Gs::print]. *)
Definition print (s : Gs) (bs : list byte) : Gs :=
  set_output s (output s ++ from_utf8_lossy bs).

Definition push (s : Gs) (v : Gval) : Gs := set_stack s (stack s ++ [v]).

Definition top (s : Gs) : option Gval := vec_last (stack s).

Section Eval.

(** [self.max_loops]: written only by [set_max_loops] before a run
    ([u64::MAX] after [Gs::new], 2000 in [golfscript]). *)
Variable max_loops : Z.

(** The bracket walk of [Gs::pop]:
    [while i > 0 && lb[i-1] >= stack.len() && loops < max_loops
       { loops += 1; i -= 1; if lb[i] > 0 { lb[i] -= 1 } }]. *)
Fixpoint pop_walk (i : nat) (loops : Z) (l : list nat) (len : nat) : list nat :=
  match i with
  | O => l
  | S i' =>
      if Nat.leb len (nth i' l 0%nat) && (loops <? max_loops) then
        pop_walk i' (loops + 1)
          (if Nat.ltb 0 (nth i' l 0%nat) then list_set l i' (nth i' l 0%nat - 1)%nat else l)
          len
      else l
  end.

(** [Gs::pop]. *)
Definition pop (s : Gs) : Gs * option Gval :=
  let s1 := set_lb s (pop_walk (length (lb s)) 0 (lb s) (length (stack s))) in
  match vec_pop (stack s1) with
  | Some (st, a) => (set_stack s1 st, Some a)
  | None => (set_unstable s1, None)
  end.

(** [self.pop().or(Some(d)).unwrap()]. *)
Definition pop_or (s : Gs) (d : Gval) : Gs * Gval :=
  let (s', o) := pop s in (s', match o with Some v => v | None => d end).

(** Every counted loop of [lib.rs]: [while guard && loops < max_loops
    { loops += 1; body }] (a [loop { if loops >= max_loops { break }
    loops += 1; ... }] has the guard [true]); the body may [break]. *)
Fixpoint capped {S : Type} (fuel : nat) (guard : S -> bool)
    (body : S -> outcome (ctl S)) (loops : Z) (s : S) : outcome S :=
  match fuel with
  | O => OutOfFuel
  | Datatypes.S f =>
      if guard s && (loops <? max_loops) then
        match body s with
        | Done (Continue s') => capped f guard body (loops + 1) s'
        | Done (Break s') => Done s'
        | Panic m => Panic m
        | OutOfFuel => OutOfFuel
        end
      else Done s
  end.

Section Ops.
(** [self.run(code)] for the blocks an operator executes, and the fuel
    of the operator's own loops. *)
Variable runf : list byte -> Gs -> outcome Gs.
Variable fuel : nat.

(** [Gs::go]. *)
Definition go (v : Gval) (s : Gs) : outcome Gs :=
  match v with
  | Blk bs => runf bs s
  | _ => Done (push s v)
  end.

Section Generic.
Variable T : Type.
(** [Into<Gval>] for the element type. *)
Variable inj : T -> Gval.

Fixpoint sort_by_go (code : list byte) (vs : list T) (acc : list (Gval * T)) (s : Gs)
  : outcome (Gs * list (Gval * T)) :=
  match vs with
  | [] => Done (s, acc)
  | v :: vs' =>
      s1 <- runf code (push s (inj v)) ;;
      let (s2, a) := pop_or s1 empty_arr in
      sort_by_go code vs' (acc ++ [(a, v)]) s2
  end.

(** [Gs::sort_by]. *)
Definition sort_by (code : list byte) (vs : list T) (s : Gs) : outcome (Gs * list T) :=
  r <- sort_by_go code vs [] s ;;
  let (s', results) := r in
  Done (s', map snd (Util.sort (fun a b => Value.cmp (fst a) (fst b)) results)).

Fixpoint fold_go (i : nat) (code : list byte) (vs : list T) (s : Gs) : outcome Gs :=
  match vs with
  | [] => Done s
  | v :: vs' =>
      let s1 := push s (inj v) in
      s2 <- (if Nat.leb 1 i then runf code s1 else Done s1) ;;
      fold_go (Datatypes.S i) code vs' s2
  end.

(** [Gs::fold]. *)
Definition fold (code : list byte) (vs : list T) (s : Gs) : outcome Gs := fold_go 0 code vs s.

(** [Gs::each]. *)
Fixpoint each (code : list byte) (vs : list T) (s : Gs) : outcome Gs :=
  match vs with
  | [] => Done s
  | v :: vs' => s1 <- runf code (push s (inj v)) ;; each code vs' s1
  end.

Fixpoint gs_map_go (code : list byte) (vs : list T) (r : list Gval) (s : Gs)
  : outcome (Gs * list Gval) :=
  match vs with
  | [] => Done (s, r)
  | v :: vs' =>
      let l := length (stack s) in
      s1 <- runf code (push s (inj v)) ;;
      d <- drain_from (stack s1) l ;;
      gs_map_go code vs' (r ++ snd d) (set_stack s1 (fst d))
  end.

(** [Gs::gs_map]: [stack.drain(lb..)] after each run, [self.lb] untouched. *)
Definition gs_map (code : list byte) (vs : list T) (s : Gs) : outcome (Gs * list Gval) :=
  gs_map_go code vs [] s.

Fixpoint select_go (code : list byte) (vs : list T) (r : list T) (s : Gs)
  : outcome (Gs * list T) :=
  match vs with
  | [] => Done (s, r)
  | v :: vs' =>
      s1 <- runf code (push s (inj v)) ;;
      let (s2, t) := pop s1 in
      let r' := match t with Some t => if Value.truthy t then r ++ [v] else r | None => r end in
      select_go code vs' r' s2
  end.

(** [Gs::select]. *)
Definition select (code : list byte) (vs : list T) (s : Gs) : outcome (Gs * list T) :=
  select_go code vs [] s.

(** [Gs::find]. *)
Fixpoint find (code : list byte) (vs : list T) (s : Gs) : outcome Gs :=
  match vs with
  | [] => Done s
  | v :: vs' =>
      s1 <- runf code (push s (inj v)) ;;
      let (s2, t) := pop s1 in
      match t with
      | Some t => if Value.truthy t then Done (push s2 (inj v)) else find code vs' s2
      | None => find code vs' s2
      end
  end.

End Generic.

Definition bint (b : byte) : Gval := Int (bz b).
Definition gid (v : Gval) : Gval := v.

(** [Gs::tilde]. *)
Definition tilde (s : Gs) : outcome Gs :=
  let (s, a) := pop s in
  match a with
  | Some (Int n) => Done (push s (Int (Z.lnot n)))
  | Some (Arr vs) => Done (set_stack s (stack s ++ vs))
  | Some (Str bs) => runf bs s
  | Some (Blk bs) => runf bs s
  | None => Done (push s empty_arr)
  end.

(** [Gs::backtick]. *)
Definition backtick (s : Gs) : Gs :=
  let (s, a) := pop s in
  match a with
  | Some v => push s (Str (Value.inspect v))
  | None => push s (Str [])
  end.

(** [Gs::bang]. *)
Definition bang (s : Gs) : Gs :=
  let (s, a) := pop s in
  match a with
  | Some f => push s (Value.gbool (Value.falsey f))
  | None => push s (Value.gbool true)
  end.

(** [Gs::at_sign]. *)
Definition at_sign (s : Gs) : Gs :=
  let (s1, c) := pop s in
  match c with
  | Some c =>
      let (s2, b) := pop s1 in
      match b with
      | Some b =>
          let (s3, a) := pop s2 in
          match a with
          | Some a => push (push (push s3 b) c) a
          | None => push (push (push s3 b) c) empty_arr
          end
      | None => push (push (push s2 empty_arr) c) empty_arr
      end
  | None => push (push (push s1 empty_arr) empty_arr) empty_arr
  end.

(** [Gs::dollar]. *)
Definition dollar (s : Gs) : outcome Gs :=
  let (s, a) := pop s in
  match a with
  | Some (Int n) =>
      let len := Z.of_nat (length (stack s)) in
      if n <? -1 then
        match to_usize (- n - 2) with
        | Some i => if Nat.ltb i (length (stack s))
                    then Done (push s (nth i (stack s) empty_arr)) else Done s
        | None => Done s
        end
      else if (0 <=? n) && (n <? len) then
        match to_usize (len - 1 - n) with
        | Some i => Done (push s (nth i (stack s) empty_arr))
        | None => Done s
        end
      else Done s
  | Some (Arr vs) => Done (push s (Arr (Util.sort Value.cmp vs)))
  | Some (Str bs) => Done (push s (Str (Util.sort (fun x y => Z.compare (bz x) (bz y)) bs)))
  | Some (Blk code) =>
      let (s, b) := pop s in
      match b with
      | Some (Int n) => Done (push s (Int n))
      | Some (Arr vs) => r <- sort_by Gval gid code vs s ;; Done (push (fst r) (Arr (snd r)))
      | Some (Str vs) => r <- sort_by byte bint code vs s ;; Done (push (fst r) (Str (snd r)))
      | Some (Blk vs) => r <- sort_by byte bint code vs s ;; Done (push (fst r) (Blk (snd r)))
      | None => Done (push s empty_arr)
      end
  | None => Done (push s empty_arr)
  end.

(** [Gs::plus]. *)
Definition plus (s : Gs) : Gs :=
  let (s, b) := pop_or s empty_arr in
  let (s, a) := pop_or s empty_arr in
  push s (Value.plus a b).

(** [Gs::minus]. *)
Definition minus (s : Gs) : Gs :=
  let (s, b) := pop_or s empty_arr in
  let (s, a) := pop_or s empty_arr in
  match Value.coerce a b with
  | Value.Ints x y => push s (Int (x - y))
  | Value.Arrs x y => push s (Arr (Util.set_subtract Value.eqb x y))
  | Value.Strs x y => push s (Str (Util.set_subtract Byte.eqb x y))
  | Value.Blks x y => push s (Blk (Util.set_subtract Byte.eqb x y))
  end.

(** The "times" loop of [Gs::asterisk]:
    [while n.is_positive() && loops < max_loops { loops += 1; run(f); n -= 1 }]. *)
Definition times (f : list byte) (n : Z) (s : Gs) : outcome Gs :=
  r <- capped fuel (fun p : Z * Gs => 0 <? fst p)
         (fun p => s' <- runf f (snd p) ;; Done (Continue (fst p - 1, s'))) 0 (n, s) ;;
  Done (snd r).

(** [Gs::asterisk]. *)
Definition asterisk (s : Gs) : outcome Gs :=
  let (s, b) := pop_or s empty_arr in
  let (s, a) := pop_or s empty_arr in
  match a, b with
  | Int a, Int b => Done (push s (Int (a * b)))
  | Arr a, Arr sep => Done (push s (Value.join a (Arr sep)))
  | Arr a, Str sep | Str sep, Arr a => Done (push s (Value.join a (Str sep)))
  | Str a, Str sep => Done (push s (Value.join (map (fun x => Str [x]) a) (Str sep)))
  | Blk code, Blk a | Str a, Blk code | Blk code, Str a => fold byte bint code a s
  | Arr a, Blk code | Blk code, Arr a => fold Gval gid code a s
  | Int n, Arr a | Arr a, Int n => Done (push s (Arr (Util.repeat a n)))
  | Int n, Str a | Str a, Int n => Done (push s (Str (Util.repeat a n)))
  | Int n, Blk f | Blk f, Int n => times f n s
  end.

(** The "unfold" loop of [Gs::slash] on two blocks. *)
Definition unfold (cond step : list byte) (s : Gs) : outcome Gs :=
  r <- capped fuel (fun _ => true)
         (fun p : list Gval * Gs =>
            let (r, s) := p in
            let s1 := match top s with
                      | Some t => push s t
                      | None => push s empty_arr
                      end in
            s2 <- runf cond s1 ;;
            let (s3, f) := pop s2 in
            match f with
            | Some f =>
                if Value.falsey f then Done (Break (r, s3))
                else
                  let r' := r ++ [match top s3 with Some a => a | None => empty_arr end] in
                  s4 <- runf step s3 ;;
                  Done (Continue (r', s4))
            | None => Done (Break (r, s3))
            end) 0 ([], s) ;;
  let (r, s5) := r in
  let (s6, _) := pop s5 in
  Done (push s6 (Arr r)).

(** [Gs::slash]. *)
Definition slash (s : Gs) : outcome Gs :=
  let (s, b) := pop_or s empty_arr in
  let (s, a) := pop_or s empty_arr in
  match a, b with
  | Int a, Int b =>
      if b =? 0 then Done (push s (Int 0)) else Done (push s (Int (a / b)))
  | Arr a, Arr sep =>
      match sep with
      | [] => Done (push s (Arr a))
      | _ => Done (push s (Arr (map Arr (Util.split Value.eqb a sep false))))
      end
  | Str a, Str sep =>
      match sep with
      | [] => Done (push s (Str a))
      | _ => Done (push s (Arr (map Str (Util.split Byte.eqb a sep false))))
      end
  | Arr a, Str sep | Str sep, Arr a =>
      match sep with
      | [] => Done (push s (Arr a))
      | _ => Done (push s (Arr (map Arr (Util.split Value.eqb a (map bint sep) false))))
      end
  | Str a, Blk code | Blk code, Str a => each byte bint code a s
  | Arr a, Blk code | Blk code, Arr a => each Gval gid code a s
  | Int n, Arr a | Arr a, Int n =>
      if n =? 0 then Done (push s (Arr a))
      else Done (push s (Arr (map Arr (Util.chunk a n))))
  | Int n, Str a | Str a, Int n =>
      if n =? 0 then Done (push s (Str a))
      else Done (push s (Arr (map Str (Util.chunk a n))))
  | Blk cond, Blk step => unfold cond step s
  | Blk code, Int n | Int n, Blk code => each Gval gid code [Int n] s
  end.

(** [Gs::percent]. *)
Definition percent (s : Gs) : outcome Gs :=
  let (s, b) := pop_or s empty_arr in
  let (s, a) := pop_or s empty_arr in
  match a, b with
  | Int a, Int b =>
      if b =? 0 then Done (push s (Int 0)) else Done (push s (Int (a mod b)))
  | Arr a, Arr sep =>
      match sep with
      | [] => Done (push s (Arr a))
      | _ => Done (push s (Arr (map Arr (Util.split Value.eqb a sep true))))
      end
  | Str a, Str sep =>
      match sep with
      | [] => Done (push s (Str a))
      | _ => Done (push s (Arr (map Str (Util.split Byte.eqb a sep true))))
      end
  | Arr a, Str sep | Str sep, Arr a =>
      match sep with
      | [] => Done (push s (Arr a))
      | _ => Done (push s (Arr (map Arr (Util.split Value.eqb a (map bint sep) true))))
      end
  | Arr a, Blk code | Blk code, Arr a =>
      r <- gs_map Gval gid code a s ;; Done (push (fst r) (Arr (snd r)))
  | Str a, Blk code | Blk code, Str a =>
      r <- gs_map byte bint code a s ;; Done (push (fst r) (Str (Util.flatten (snd r))))
  | Int n, Arr a | Arr a, Int n =>
      if n =? 0 then Done (push s (Arr a)) else Done (push s (Arr (Util.every_nth a n)))
  | Int n, Str a | Str a, Int n =>
      if n =? 0 then Done (push s (Str a)) else Done (push s (Str (Util.every_nth a n)))
  | Int n, Blk code | Blk code, Int n =>
      r <- gs_map Gval gid code [Int n] s ;; Done (push (fst r) (Arr (snd r)))
  | Blk code_a, Blk code_b =>
      r <- gs_map Gval gid code_b [Blk code_a] s ;; Done (push (fst r) (Arr (snd r)))
  end.

(** [Gs::vertical_bar], [Gs::ampersand], [Gs::caret]. *)
Definition vertical_bar (s : Gs) : Gs :=
  let (s, b) := pop_or s empty_arr in
  let (s, a) := pop_or s empty_arr in
  push s (match Value.coerce a b with
          | Value.Ints x y => Int (Z.lor x y)
          | Value.Arrs x y => Arr (Util.set_or Value.eqb x y)
          | Value.Strs x y => Str (Util.set_or Byte.eqb x y)
          | Value.Blks x y => Blk (Util.set_or Byte.eqb x y)
          end).

Definition ampersand (s : Gs) : Gs :=
  let (s, b) := pop_or s empty_arr in
  let (s, a) := pop_or s empty_arr in
  push s (match Value.coerce a b with
          | Value.Ints x y => Int (Z.land x y)
          | Value.Arrs x y => Arr (Util.set_and Value.eqb x y)
          | Value.Strs x y => Str (Util.set_and Byte.eqb x y)
          | Value.Blks x y => Blk (Util.set_and Byte.eqb x y)
          end).

Definition caret (s : Gs) : Gs :=
  let (s, b) := pop_or s empty_arr in
  let (s, a) := pop_or s empty_arr in
  push s (match Value.coerce a b with
          | Value.Ints x y => Int (Z.lxor x y)
          | Value.Arrs x y => Arr (Util.set_xor Value.eqb x y)
          | Value.Strs x y => Str (Util.set_xor Byte.eqb x y)
          | Value.Blks x y => Blk (Util.set_xor Byte.eqb x y)
          end).

(** [Gs::lteqgt]. *)
Definition lteqgt (o : comparison) (s : Gs) : Gs :=
  let (s, b) := pop_or s empty_arr in
  let (s, a) := pop_or s empty_arr in
  match o, a, b with
  | Eq, Int i, Arr a | Eq, Arr a, Int i =>
      match Util.index a i with Some x => push s x | None => s end
  | Eq, Int i, Str a | Eq, Str a, Int i | Eq, Int i, Blk a | Eq, Blk a, Int i =>
      match Util.index a i with Some x => push s (bint x) | None => s end
  | o, Int i, Arr a | o, Arr a, Int i => push s (Arr (Util.slice o a i))
  | o, Int i, Str a | o, Str a, Int i => push s (Str (Util.slice o a i))
  | o, Int i, Blk a | o, Blk a, Int i => push s (Blk (Util.slice o a i))
  | o, x, y => push s (Value.gbool (match Value.cmp x y, o with
                                    | Lt, Lt | Eq, Eq | Gt, Gt => true
                                    | _, _ => false
                                    end))
  end.

(** The range loop of [Gs::comma]:
    [while i < n && loops < max_loops { loops += 1; r.push(Int(i)); i += 1 }]. *)
Definition range (n : Z) : outcome (list Gval) :=
  r <- capped fuel (fun p : Z * list Gval => fst p <? n)
         (fun p => Done (Continue (fst p + 1, snd p ++ [Int (fst p)]))) 0 (0, []) ;;
  Done (snd r).

(** [Gs::comma]. *)
Definition comma (s : Gs) : outcome Gs :=
  let (s, a) := pop s in
  match a with
  | Some (Int n) => r <- range n ;; Done (push s (Arr r))
  | Some (Arr a) => Done (push s (Int (Z.of_nat (length a))))
  | Some (Str a) => Done (push s (Int (Z.of_nat (length a))))
  | Some (Blk code) =>
      let (s, b) := pop s in
      match b with
      | Some (Int n) => r <- select Gval gid code [Int n] s ;; Done (push (fst r) (Arr (snd r)))
      | Some (Arr a) => r <- select Gval gid code a s ;; Done (push (fst r) (Arr (snd r)))
      | Some (Str a) => r <- select byte bint code a s ;; Done (push (fst r) (Str (snd r)))
      | Some (Blk a) => r <- select byte bint code a s ;; Done (push (fst r) (Blk (snd r)))
      | None => Done (push s empty_arr)
      end
  | None => Done (push s empty_arr)
  end.

(** The guard of [Gs::question] on two integers, for a base [a] that fits
    an [i32] and an exponent [e] that fits a [u32]:
    [f64::log(f64::from(a), 10.0) * f64::from(e) < 100.0].  IEEE semantics:
    the logarithm of a negative number is NaN (the comparison is false);
    that of 0 is minus infinity (times 0 it is NaN, times a positive
    exponent it is below 100).  For [a >= 1] the comparison is taken on
    the reals, i.e. [a ^ e < 10 ^ 100]; rounding of the floating-point
    logarithm is not modelled. *)
Definition pow_guard (a e : Z) : bool :=
  if a <? 0 then false
  else if a =? 0 then 0 <? e
  else if a =? 1 then true
  else if 333 <=? e then false
  else a ^ e <? 10 ^ 100.

(** Position of the first element equal to [n], or -1. *)
Fixpoint position_from {T} (p : T -> bool) (i : Z) (l : list T) : Z :=
  match l with
  | [] => -1
  | x :: l' => if p x then i else position_from p (i + 1) l'
  end.

(** [Gs::question]. *)
Definition question (s : Gs) : outcome Gs :=
  let (s, b) := pop_or s empty_arr in
  let (s, a) := pop_or s empty_arr in
  match a, b with
  | Int a, Int b =>
      match to_u32 b with
      | Some e =>
          match to_i32 a with
          | Some ai => Done (push s (Int (if pow_guard ai e then a ^ e else a)))
          | None => Panic "called `Option::unwrap()` on a `None` value"
          end
      | None => Done (push s (Int 0))
      end
  | Arr h, (Int _ as n) | (Int _ as n), Arr h
  | Arr h, (Str _ as n) | (Str _ as n), Arr h
  | Arr h, (Arr _ as n) => Done (push s (Int (position_from (fun x => Value.eqb x n) 0 h)))
  | Str h, Int n | Int n, Str h =>
      Done (push s (Int (match to_u8 n with
                         | None => -1
                         | Some b => position_from (fun x => Byte.eqb x b) 0 h
                         end)))
  | Str h, Str n => Done (push s (Int (Util.string_index Byte.eqb h n)))
  | Int n, Blk code | Blk code, Int n => find Gval gid code [Int n] s
  | Blk code, Blk a | Blk code, Str a | Str a, Blk code => find byte bint code a s
  | Blk code, Arr a | Arr a, Blk code => find Gval gid code a s
  end.

(** [Gs::left_paren]. *)
Definition left_paren (s : Gs) : Gs :=
  let (s, a) := pop s in
  match a with
  | Some (Int n) => push s (Int (n - 1))
  | Some (Arr a) => match a with [] => s | x :: r => push (push s (Arr r)) x end
  | Some (Str a) => match a with [] => s | x :: r => push (push s (Str r)) (bint x) end
  | Some (Blk a) => match a with [] => s | x :: r => push (push s (Blk r)) (bint x) end
  | None => push s (Int (0 - 1))
  end.

(** [Gs::right_paren]. *)
Definition right_paren (s : Gs) : Gs :=
  let (s, a) := pop s in
  match a with
  | Some (Int n) => push s (Int (n + 1))
  | Some (Arr a) => match vec_pop a with None => s | Some (r, l) => push (push s (Arr r)) l end
  | Some (Str a) => match vec_pop a with None => s | Some (r, l) => push (push s (Str r)) (bint l) end
  | Some (Blk a) => match vec_pop a with None => s | Some (r, l) => push (push s (Blk r)) (bint l) end
  | None => push s (Int (0 + 1))
  end.

(** [Gs::rng]: [state * 1664525 + 1013904223] with [u64] wrap-around. *)
Definition rng (s : Gs) : Gs * Z :=
  let m := (rng_state s * 1664525 + 1013904223) mod 2 ^ 64 in
  (set_rng s m, m).

(** [Gs::rand]. *)
Definition rand (s : Gs) : Gs :=
  let (s, a) := pop s in
  match a with
  | Some (Int n) => if 0 <? n then let (s, m) := rng s in push s (Int (Z.rem m n))
                    else push s (Int 0)
  | _ => push s (Int 0)
  end.

(** [Gs::do_loop]. *)
Definition do_loop (s : Gs) : outcome Gs :=
  let (s, a) := pop s in
  match a with
  | Some a =>
      capped fuel (fun _ => true)
        (fun s =>
           s1 <- go a s ;;
           let (s2, f) := pop s1 in
           match f with
           | Some f => if Value.falsey f then Done (Break s2) else Done (Continue s2)
           | None => Done (Break s2)
           end) 0 s
  | None => Done s
  end.

(** [Gs::while_loop]; [which] is [true] for [while], [false] for [until]. *)
Definition while_loop (which : bool) (s : Gs) : outcome Gs :=
  let (s, b) := pop_or s empty_arr in
  let (s, a) := pop_or s empty_arr in
  capped fuel (fun _ => true)
    (fun s =>
       s1 <- go a s ;;
       let (s2, f) := pop s1 in
       match f with
       | Some f =>
           if Bool.eqb (Value.falsey f) which then Done (Break s2)
           else s3 <- go b s2 ;; Done (Continue s3)
       | None =>
           if negb which then Done (Break s2)
           else s3 <- go b s2 ;; Done (Continue s3)
       end) 0 s.

(** The padding loop of [Gs::zip]:
    [while r.len() < y + 1 && loops < max_loops { loops += 1; r.push(blank) }]. *)
Definition zip_pad (blank : Gval) (y : nat) (r : list Gval) : outcome (list Gval) :=
  capped fuel (fun r : list Gval => Nat.ltb (length r) (y + 1))
    (fun r => Done (Continue (r ++ [blank]))) 0 r.

Fixpoint zip_row (blank : Gval) (y : nat) (row : list Gval) (r : list Gval)
  : outcome (list Gval) :=
  match row with
  | [] => Done r
  | elem :: row' =>
      r1 <- zip_pad blank y r ;;
      match nth_error r1 y with
      | Some v => v' <- Value.gpush v elem ;; zip_row blank (Datatypes.S y) row' (list_set r1 y v')
      | None => Panic "index out of bounds"
      end
  end.

Fixpoint zip_rows (blank : Gval) (a : list Gval) (r : list Gval) : outcome (list Gval) :=
  match a with
  | [] => Done r
  | row :: a' => r1 <- zip_row blank 0 (Value.as_arr row) r ;; zip_rows blank a' r1
  end.

(** [Gs::zip]: [self.pop().unwrap().unwrap_arr()]. *)
Definition zip (s : Gs) : outcome Gs :=
  let (s, a) := pop s in
  match a with
  | None => Panic "called `Option::unwrap()` on a `None` value"
  | Some a =>
      a <- Value.unwrap_arr a ;;
      let blank := match a with [] => Arr [] | x :: _ => Value.factory x end in
      r <- zip_rows blank a [] ;;
      Done (push s (Arr r))
  end.

(** The digit loop of [Gs::base]:
    [while !i.is_zero() && loops < max_loops
       { loops += 1; let (j, k) = i.div_mod_floor(&b); i = j; digits.push(Int(k)) }]. *)
Definition base_digits (b n : Z) : outcome (list Gval) :=
  r <- capped fuel (fun p : Z * list Gval => negb (fst p =? 0))
         (fun p => if b =? 0 then Panic "attempt to divide by zero"
                   else Done (Continue (fst p / b, snd p ++ [Int (fst p mod b)])))
         0 (Z.abs n, []) ;;
  Done (rev (snd r)).

Fixpoint base_total (b total : Z) (ds : list Gval) : outcome Z :=
  match ds with
  | [] => Done total
  | d :: ds' => k <- Value.unwrap_int d ;; base_total b (total * b + k) ds'
  end.

(** [Gs::base]: [self.pop().unwrap().unwrap_int()]. *)
Definition base (s : Gs) : outcome Gs :=
  let (s, bv) := pop s in
  match bv with
  | None => Panic "called `Option::unwrap()` on a `None` value"
  | Some bv =>
      b <- Value.unwrap_int bv ;;
      let (s, nv) := pop s in
      match nv with
      | Some (Int n) => ds <- base_digits b n ;; Done (push s (Arr ds))
      | Some n => t <- base_total b 0 (Value.as_arr n) ;; Done (push s (Int t))
      | None => Done (push s (Int 0))
      end
  end.

(** [Gs::dup]. *)
Definition dup (s : Gs) : Gs :=
  let (s, a) := pop s in
  match a with
  | Some a => push (push s a) a
  | None => push (push s empty_arr) empty_arr
  end.

Definition is_sym (bs : list byte) (name : string) : bool := bytes_eqb bs (bytes name).

(** The [Gtoken::Symbol] arms of [Gs::run_token]. *)
Definition run_symbol (bs : list byte) (s : Gs) : outcome Gs :=
  if is_sym bs "~" then tilde s
  else if is_sym bs "`" then Done (backtick s)
  else if is_sym bs "!" then Done (bang s)
  else if is_sym bs "@" then Done (at_sign s)
  else if is_sym bs "$" then dollar s
  else if is_sym bs "+" then Done (plus s)
  else if is_sym bs "-" then Done (minus s)
  else if is_sym bs "*" then asterisk s
  else if is_sym bs "/" then slash s
  else if is_sym bs "%" then percent s
  else if is_sym bs "|" then Done (vertical_bar s)
  else if is_sym bs "&" then Done (ampersand s)
  else if is_sym bs "^" then Done (caret s)
  else if is_sym bs "[" then Done (set_lb s (lb s ++ [length (stack s)]))
  else if is_sym bs "]" then
    let (l, start) := match vec_pop (lb s) with
                      | Some (l, x) => (l, x)
                      | None => (lb s, 0%nat)
                      end in
    d <- drain_from (stack s) start ;;
    Done (push (set_stack (set_lb s l) (fst d)) (Arr (snd d)))
  else if bytes_eqb bs [Byte.x5c] then
    let (s1, b) := pop s in
    match b with
    | Some b =>
        let (s2, a) := pop s1 in
        match a with
        | Some a => Done (push (push s2 b) a)
        | None => Done (push s2 b)
        end
    | None => Done s1
    end
  else if is_sym bs ";" then Done (fst (pop s))
  else if is_sym bs "<" then Done (lteqgt Lt s)
  else if is_sym bs "=" then Done (lteqgt Eq s)
  else if is_sym bs ">" then Done (lteqgt Gt s)
  else if is_sym bs "," then comma s
  else if is_sym bs "." then Done (dup s)
  else if is_sym bs "?" then question s
  else if is_sym bs "(" then Done (left_paren s)
  else if is_sym bs ")" then Done (right_paren s)
  else if is_sym bs "and" then
    let (s1, b) := pop s in
    match b with
    | Some b =>
        let (s2, a) := pop s1 in
        match a with
        | Some a => go (if Value.truthy a then b else a) s2
        | None => go b s2
        end
    | None => Done (push s1 (Value.gbool false))
    end
  else if is_sym bs "or" then
    let (s1, b) := pop s in
    match b with
    | Some b =>
        let (s2, a) := pop s1 in
        match a with
        | Some a => go (if Value.truthy a then a else b) s2
        | None => go b s2
        end
    | None => Done (push s1 (Value.gbool false))
    end
  else if is_sym bs "xor" then
    let (s1, b) := pop_or s (Value.gbool false) in
    let (s2, a) := pop_or s1 (Value.gbool false) in
    go (if Value.truthy a && Value.falsey b then a
        else if Value.falsey a && Value.truthy b then b else Value.gbool false) s2
  else if is_sym bs "n" then Done (push s (Str [Byte.x0a]))
  else if is_sym bs "print" then
    let (s1, a) := pop s in
    match a with
    | Some a => Done (print s1 (Value.to_gs a))
    | None => Done (print s1 [])
    end
  else if is_sym bs "p" then
    let (s1, a) := pop s in
    let s2 := match a with Some a => print s1 (Value.inspect a) | None => s1 end in
    Done (print s2 [Byte.x0a])
  else if is_sym bs "puts" then
    let (s1, a) := pop s in
    let s2 := match a with Some a => print s1 (Value.to_gs a) | None => s1 end in
    Done (print s2 [Byte.x0a])
  else if is_sym bs "rand" then Done (rand s)
  else if is_sym bs "do" then do_loop s
  else if is_sym bs "while" then while_loop true s
  else if is_sym bs "until" then while_loop false s
  else if is_sym bs "if" then
    let (s1, c) := pop_or s (Value.gbool false) in
    let (s2, b) := pop_or s1 (Value.gbool false) in
    let (s3, a) := pop_or s2 (Value.gbool false) in
    if Value.truthy a then go b s3 else go c s3
  else if is_sym bs "abs" then
    let (s1, a) := pop_or s (Int 0) in
    match a with
    | Int n => Done (push s1 (Int (Z.abs n)))
    | _ => Done (push s1 a)
    end
  else if is_sym bs "zip" then zip s
  else if is_sym bs "base" then base s
  else Done s.

(** [Gs::run_token]. *)
Definition run_token (t : Gtoken) (s : Gs) : outcome Gs :=
  match vars s (Parse.lexeme t) with
  | Some v => go v s
  | None =>
      match t with
      | IntLiteral bs =>
          match parse_bytes10 bs with
          | Some n => Done (push s (Int n))
          | None => Panic "called `Option::unwrap()` on a `None` value"
          end
      | SingleQuotedString bs => Done (push s (Str (unescape bs true)))
      | DoubleQuotedString bs => Done (push s (Str (unescape bs false)))
      | Symbol bs => run_symbol bs s
      | Block _ src => Done (push s (Blk src))
      | Comment _ => Done s
      end
  end.

(** The token loop of [Gs::run], with the assignment [:] name. *)
Fixpoint run_tokens (tokens : list Gtoken) (s : Gs) : outcome Gs :=
  match tokens with
  | [] => Done s
  | t :: rest =>
      match t with
      | Symbol bs =>
          if is_sym bs ":" then
            match rest with
            | name :: rest' =>
                let s' := match top s with
                          | Some v => set_vars s (insert_var (vars s) (Parse.lexeme name) v)
                          | None => s
                          end in
                run_tokens rest' s'
            | [] => Done s
            end
          else s' <- run_token t s ;; run_tokens rest s'
      | _ => s' <- run_token t s ;; run_tokens rest s'
      end
  end.

End Ops.

(** [Gs::run]: tokens with a remainder are not run at all. *)
Fixpoint run (fuel : nat) (code : list byte) (s : Gs) : outcome Gs :=
  match fuel with
  | O => OutOfFuel
  | Datatypes.S f =>
      let (rest, tokens) := Parse.parse_code code in
      match rest with
      | [] => run_tokens (run f) f tokens s
      | _ => Done s
      end
  end.

(** The token loop of [Gs::stepped]: [name = tokens.next().expect(..)],
    [t = self.top().unwrap().clone()]; other tokens go to [run_token],
    whose blocks are executed by [run]. *)
Fixpoint stepped_tokens (f : nat) (tokens : list Gtoken) (s : Gs) : outcome Gs :=
  match tokens with
  | [] => Done s
  | t :: rest =>
      match t with
      | Symbol bs =>
          if is_sym bs ":" then
            match rest with
            | name :: rest' =>
                match top s with
                | Some v => stepped_tokens f rest' (set_vars s (insert_var (vars s) (Parse.lexeme name) v))
                | None => Panic "called `Option::unwrap()` on a `None` value"
                end
            | [] => Panic "parse error: assignment"
            end
          else s' <- run_token (run f) f t s ;; stepped_tokens f rest s'
      | _ => s' <- run_token (run f) f t s ;; stepped_tokens f rest s'
      end
  end.

(** [Gs::stepped]: a remainder after parsing is fatal. *)
Definition stepped (fuel : nat) (code : list byte) (s : Gs) : outcome Gs :=
  match fuel with
  | O => OutOfFuel
  | Datatypes.S f =>
      let (rest, tokens) := Parse.parse_code code in
      match rest with
      | [] => stepped_tokens f tokens s
      | _ => Panic "parse error: has remainder"
      end
  end.

End Eval.

(** [golfscript(input, source)], the sandboxed entry point. *)
Definition golfscript (fuel : nat) (input source : list byte) : outcome (list byte) :=
  let gs := push new (Str input) in
  s1 <- run 2000 fuel source gs ;;
  let s2 := set_stack s1 [Arr (stack s1)] in
  s3 <- run 2000 fuel (bytes "puts") s2 ;;
  Done (output s3).

End Sandbox.

(** * The strict prototype of [src/src/main.rs]

    [Gs] of [main.rs] also declares a [parse_cache] field that [Gs::new]
    does not initialise and nothing reads; it is left out.  Arithmetic on
    [usize] is that of a debug build: an underflow panics. *)

Module Strict.

Record Gs : Type := mkGs {
  stack : list Gval;
  vars : list byte -> option Gval;
  lb : list nat
}.

Definition set_stack (s : Gs) (st : list Gval) : Gs := mkGs st (vars s) (lb s).
Definition set_vars (s : Gs) (v : list byte -> option Gval) : Gs := mkGs (stack s) v (lb s).
Definition set_lb (s : Gs) (l : list nat) : Gs := mkGs (stack s) (vars s) l.

(** [Gs::new()]: the name [n] is bound to a newline. *)
Definition new : Gs :=
  mkGs [] (Sandbox.insert_var (fun _ => None) (bytes "n") (Str [Byte.x0a])) [].

Definition push (s : Gs) (v : Gval) : Gs := set_stack s (stack s ++ [v]).

(** [Gs::top]: [self.stack.last().expect("stack underflow")]. *)
Definition top (s : Gs) : outcome Gval :=
  match vec_last (stack s) with Some v => Done v | None => Panic "stack underflow" end.

(** The bracket walk of [main.rs]'s [Gs::pop]:
    [while i > 0 && lb[i-1] < stack.len() { i -= 1; lb[i] -= 1 }]. *)
Fixpoint pop_walk (i : nat) (l : list nat) (len : nat) : outcome (list nat) :=
  match i with
  | O => Done l
  | S i' =>
      if Nat.ltb (nth i' l 0%nat) len then
        if Nat.eqb (nth i' l 0%nat) 0 then Panic "attempt to subtract with overflow"
        else pop_walk i' (list_set l i' (nth i' l 0%nat - 1)%nat) len
      else Done l
  end.

(** [Gs::pop]: [self.stack.pop().expect("stack underflow")]. *)
Definition pop (s : Gs) : outcome (Gs * Gval) :=
  l <- pop_walk (length (lb s)) (lb s) (length (stack s)) ;;
  match vec_pop (stack s) with
  | Some (st, a) => Done (mkGs st (vars s) l, a)
  | None => Panic "stack underflow"
  end.

Definition pop2 (s : Gs) : outcome (Gs * Gval * Gval) :=
  p <- pop s ;; let (s1, b) := p in
  q <- pop s1 ;; let (s2, a) := q in
  Done (s2, a, b).

Section Ops.
Variable runf : list byte -> Gs -> outcome Gs.
Variable fuel : nat.

(** [Gs::go]. *)
Definition go (v : Gval) (s : Gs) : outcome Gs :=
  match v with Blk bs => runf bs s | _ => Done (push s v) end.

Section Generic.
Variable T : Type.
Variable inj : T -> Gval.

Fixpoint sort_by_go (code : list byte) (vs : list T) (acc : list (Gval * T)) (s : Gs)
  : outcome (Gs * list (Gval * T)) :=
  match vs with
  | [] => Done (s, acc)
  | v :: vs' =>
      s1 <- runf code (push s (inj v)) ;;
      p <- pop s1 ;;
      sort_by_go code vs' (acc ++ [(snd p, v)]) (fst p)
  end.

(** [Gs::sort_by]. *)
Definition sort_by (code : list byte) (vs : list T) (s : Gs) : outcome (Gs * list T) :=
  r <- sort_by_go code vs [] s ;;
  Done (fst r, map snd (Util.sort (fun a b => Value.cmp (fst a) (fst b)) (snd r))).

Fixpoint fold_go (i : nat) (code : list byte) (vs : list T) (s : Gs) : outcome Gs :=
  match vs with
  | [] => Done s
  | v :: vs' =>
      let s1 := push s (inj v) in
      s2 <- (if Nat.leb 1 i then runf code s1 else Done s1) ;;
      fold_go (S i) code vs' s2
  end.

(** [Gs::fold]. *)
Definition fold (code : list byte) (vs : list T) (s : Gs) : outcome Gs := fold_go 0 code vs s.

(** [Gs::each]. *)
Fixpoint each (code : list byte) (vs : list T) (s : Gs) : outcome Gs :=
  match vs with
  | [] => Done s
  | v :: vs' => s1 <- runf code (push s (inj v)) ;; each code vs' s1
  end.

Fixpoint gs_map_go (code : list byte) (vs : list T) (r : list Gval) (s : Gs)
  : outcome (Gs * list Gval) :=
  match vs with
  | [] => Done (s, r)
  | v :: vs' =>
      let l := length (stack s) in
      s1 <- runf code (push s (inj v)) ;;
      d <- drain_from (stack s1) l ;;
      gs_map_go code vs' (r ++ snd d) (set_stack s1 (fst d))
  end.

(** [Gs::gs_map], returning [Gval::Arr(r)]. *)
Definition gs_map (code : list byte) (vs : list T) (s : Gs) : outcome (Gs * Gval) :=
  r <- gs_map_go code vs [] s ;; Done (fst r, Arr (snd r)).

Fixpoint select_go (code : list byte) (vs : list T) (r : list T) (s : Gs)
  : outcome (Gs * list T) :=
  match vs with
  | [] => Done (s, r)
  | v :: vs' =>
      s1 <- runf code (push s (inj v)) ;;
      p <- pop s1 ;;
      select_go code vs' (if negb (Value.falsey (snd p)) then r ++ [v] else r) (fst p)
  end.

(** [Gs::select]. *)
Definition select (code : list byte) (vs : list T) (s : Gs) : outcome (Gs * list T) :=
  select_go code vs [] s.

(** [Gs::find]. *)
Fixpoint find (code : list byte) (vs : list T) (s : Gs) : outcome Gs :=
  match vs with
  | [] => Done s
  | v :: vs' =>
      s1 <- runf code (push s (inj v)) ;;
      p <- pop s1 ;;
      if negb (Value.falsey (snd p)) then Done (push (fst p) (inj v)) else find code vs' (fst p)
  end.

End Generic.

Definition bint (b : byte) : Gval := Int (bz b).
Definition gid (v : Gval) : Gval := v.

(** [Gs::tilde]. *)
Definition tilde (s : Gs) : outcome Gs :=
  p <- pop s ;; let (s, a) := p in
  match a with
  | Int n => Done (push s (Int (Z.lnot n)))
  | Arr vs => Done (set_stack s (stack s ++ vs))
  | Str bs | Blk bs => runf bs s
  end.

(** [Gs::backtick], [Gs::bang]. *)
Definition backtick (s : Gs) : outcome Gs :=
  p <- pop s ;; Done (push (fst p) (Str (Value.inspect (snd p)))).

Definition bang (s : Gs) : outcome Gs :=
  p <- pop s ;; Done (push (fst p) (Value.gbool (Value.falsey (snd p)))).

(** [Gs::at_sign]. *)
Definition at_sign (s : Gs) : outcome Gs :=
  p <- pop s ;; let (s, c) := p in
  p <- pop s ;; let (s, b) := p in
  p <- pop s ;; let (s, a) := p in
  Done (push (push (push s b) c) a).

(** [Gs::dollar]. *)
Definition dollar (s : Gs) : outcome Gs :=
  p <- pop s ;; let (s, a) := p in
  match a with
  | Int n =>
      let len := Z.of_nat (length (stack s)) in
      if n <? -1 then
        match to_usize (- n - 2) with
        | Some i => if Nat.ltb i (length (stack s))
                    then Done (push s (nth i (stack s) empty_arr)) else Done s
        | None => Done s
        end
      else if (0 <=? n) && (n <? len) then
        match to_usize (len - 1 - n) with
        | Some i => Done (push s (nth i (stack s) empty_arr))
        | None => Done s
        end
      else Done s
  | Arr vs => Done (push s (Arr (Util.sort Value.cmp vs)))
  | Str bs => Done (push s (Str (Util.sort (fun x y => Z.compare (bz x) (bz y)) bs)))
  | Blk code =>
      p <- pop s ;; let (s, b) := p in
      match b with
      | Int _ => Panic "can't sort an integer"
      | Arr vs => r <- sort_by Gval gid code vs s ;; Done (push (fst r) (Arr (snd r)))
      | Str vs => r <- sort_by byte bint code vs s ;; Done (push (fst r) (Str (snd r)))
      | Blk vs => r <- sort_by byte bint code vs s ;; Done (push (fst r) (Blk (snd r)))
      end
  end.

(** [Gs::plus], [Gs::minus]. *)
Definition plus (s : Gs) : outcome Gs :=
  p <- pop2 s ;; let '(s, a, b) := p in Done (push s (Value.plus a b)).

Definition minus (s : Gs) : outcome Gs :=
  p <- pop2 s ;; let '(s, a, b) := p in
  match Value.coerce a b with
  | Value.Ints x y => Done (push s (Int (x - y)))
  | Value.Arrs x y => Done (push s (Arr (Util.set_subtract Value.eqb x y)))
  | Value.Strs x y => Done (push s (Str (Util.set_subtract Byte.eqb x y)))
  | Value.Blks x y => Done (push s (Blk (Util.set_subtract Byte.eqb x y)))
  end.

(** The uncapped "times" loop of [Gs::asterisk]:
    [while n.is_positive() { self.run(&f); n -= 1 }]. *)
Fixpoint times (k : nat) (f : list byte) (n : Z) (s : Gs) : outcome Gs :=
  match k with
  | O => OutOfFuel
  | Datatypes.S k' =>
      if 0 <? n then s' <- runf f s ;; times k' f (n - 1) s' else Done s
  end.

(** [Gs::asterisk]. *)
Definition asterisk (s : Gs) : outcome Gs :=
  p <- pop2 s ;; let '(s, a, b) := p in
  match a, b with
  | Int a, Int b => Done (push s (Int (a * b)))
  | Arr a, Arr sep => Done (push s (Value.join a (Arr sep)))
  | Str a, Str sep => Done (push s (Value.join (map (fun x => Str [x]) a) (Str sep)))
  | Arr a, Str sep | Str sep, Arr a => Done (push s (Value.join a (Str sep)))
  | Blk code, Blk a | Str a, Blk code | Blk code, Str a => fold byte bint code a s
  | Arr a, Blk code | Blk code, Arr a => fold Gval gid code a s
  | Int n, Arr a | Arr a, Int n => Done (push s (Arr (Util.repeat a n)))
  | Int n, Str a | Str a, Int n => Done (push s (Str (Util.repeat a n)))
  | Int n, Blk f | Blk f, Int n => times fuel f n s
  end.

(** [Gs::slash]; [BigInt] division truncates and panics on a zero divisor. *)
Definition slash (s : Gs) : outcome Gs :=
  p <- pop2 s ;; let '(s, a, b) := p in
  match a, b with
  | Int a, Int b =>
      if b =? 0 then Panic "attempt to divide by zero" else Done (push s (Int (Z.quot a b)))
  | Arr a, Arr sep => Done (push s (Arr (map Arr (Util.split Value.eqb a sep false))))
  | Str a, Str sep => Done (push s (Arr (map Str (Util.split Byte.eqb a sep false))))
  | Arr a, Str sep | Str sep, Arr a =>
      Done (push s (Arr (map Arr (Util.split Value.eqb a (map bint sep) false))))
  | Str a, Blk code | Blk code, Str a => each byte bint code a s
  | Arr a, Blk code | Blk code, Arr a => each Gval gid code a s
  | Int n, Arr a | Arr a, Int n => Done (push s (Arr (map Arr (Util.chunk a n))))
  | Int n, Str a | Str a, Int n => Done (push s (Arr (map Str (Util.chunk a n))))
  | Blk _, Blk _ => Panic "not yet implemented: unfold"
  | Blk _, Int _ | Int _, Blk _ => Panic "int-block /"
  end.

(** [Gs::percent]; [BigInt] remainder truncates and panics on a zero divisor. *)
Definition percent (s : Gs) : outcome Gs :=
  p <- pop2 s ;; let '(s, a, b) := p in
  match a, b with
  | Int a, Int b =>
      if b =? 0 then Panic "attempt to divide by zero"
      else Done (push s (Int (Z.rem a b)))
  | Arr a, Arr sep => Done (push s (Arr (map Arr (Util.split Value.eqb a sep true))))
  | Str a, Str sep => Done (push s (Arr (map Str (Util.split Byte.eqb a sep true))))
  | Arr a, Str sep | Str sep, Arr a =>
      Done (push s (Arr (map Arr (Util.split Value.eqb a (map bint sep) true))))
  | Arr a, Blk code | Blk code, Arr a =>
      r <- gs_map Gval gid code a s ;; Done (push (fst r) (snd r))
  | Str a, Blk code | Blk code, Str a =>
      r <- gs_map byte bint code a s ;; Done (push (fst r) (Str (Value.to_gs (snd r))))
  | Int n, Arr a | Arr a, Int n => Done (push s (Arr (Util.every_nth a n)))
  | Int n, Str a | Str a, Int n => Done (push s (Str (Util.every_nth a n)))
  | Int _, Blk _ | Blk _, Int _ | Blk _, Blk _ => Panic "%"
  end.

(** [Gs::vertical_bar], [Gs::ampersand], [Gs::caret]. *)
Definition vertical_bar (s : Gs) : outcome Gs :=
  p <- pop2 s ;; let '(s, a, b) := p in
  Done (push s (match Value.coerce a b with
                | Value.Ints x y => Int (Z.lor x y)
                | Value.Arrs x y => Arr (Util.set_or Value.eqb x y)
                | Value.Strs x y => Str (Util.set_or Byte.eqb x y)
                | Value.Blks x y => Blk (Util.set_or Byte.eqb x y)
                end)).

Definition ampersand (s : Gs) : outcome Gs :=
  p <- pop2 s ;; let '(s, a, b) := p in
  Done (push s (match Value.coerce a b with
                | Value.Ints x y => Int (Z.land x y)
                | Value.Arrs x y => Arr (Util.set_and Value.eqb x y)
                | Value.Strs x y => Str (Util.set_and Byte.eqb x y)
                | Value.Blks x y => Blk (Util.set_and Byte.eqb x y)
                end)).

Definition caret (s : Gs) : outcome Gs :=
  p <- pop2 s ;; let '(s, a, b) := p in
  Done (push s (match Value.coerce a b with
                | Value.Ints x y => Int (Z.lxor x y)
                | Value.Arrs x y => Arr (Util.set_xor Value.eqb x y)
                | Value.Strs x y => Str (Util.set_xor Byte.eqb x y)
                | Value.Blks x y => Blk (Util.set_xor Byte.eqb x y)
                end)).

(** [Gs::lteqgt]. *)
Definition lteqgt (o : comparison) (s : Gs) : outcome Gs :=
  p <- pop2 s ;; let '(s, a, b) := p in
  match o, a, b with
  | Eq, Int i, Arr a | Eq, Arr a, Int i =>
      match Util.index a i with Some x => Done (push s x) | None => Done s end
  | Eq, Int i, Str a | Eq, Str a, Int i | Eq, Int i, Blk a | Eq, Blk a, Int i =>
      match Util.index a i with Some x => Done (push s (bint x)) | None => Done s end
  | o, Int i, Arr a | o, Arr a, Int i => Done (push s (Arr (Util.slice o a i)))
  | o, Int i, Str a | o, Str a, Int i => Done (push s (Str (Util.slice o a i)))
  | o, Int i, Blk a | o, Blk a, Int i => Done (push s (Blk (Util.slice o a i)))
  | o, x, y => Done (push s (Value.gbool (match Value.cmp x y, o with
                                          | Lt, Lt | Eq, Eq | Gt, Gt => true
                                          | _, _ => false
                                          end)))
  end.

(** The uncapped range loop of [Gs::comma]:
    [while i < n { r.push(Int(i.clone())); i += 1 }]. *)
Fixpoint range (k : nat) (i n : Z) (r : list Gval) : outcome (list Gval) :=
  match k with
  | O => OutOfFuel
  | Datatypes.S k' => if i <? n then range k' (i + 1) n (r ++ [Int i]) else Done r
  end.

(** [Gs::comma]. *)
Definition comma (s : Gs) : outcome Gs :=
  p <- pop s ;; let (s, a) := p in
  match a with
  | Int n => r <- range fuel 0 n [] ;; Done (push s (Arr r))
  | Arr a => Done (push s (Int (Z.of_nat (length a))))
  | Str a => Done (push s (Int (Z.of_nat (length a))))
  | Blk code =>
      p <- pop s ;; let (s, b) := p in
      match b with
      | Int _ => Panic "select on integer"
      | Arr a => r <- select Gval gid code a s ;; Done (push (fst r) (Arr (snd r)))
      | Str a => r <- select byte bint code a s ;; Done (push (fst r) (Str (snd r)))
      | Blk a => r <- select byte bint code a s ;; Done (push (fst r) (Blk (snd r)))
      end
  end.

(** [Gs::question]: the exact power, no guard. *)
Definition question (s : Gs) : outcome Gs :=
  p <- pop2 s ;; let '(s, a, b) := p in
  match a, b with
  | Int a, Int b =>
      Done (push s (Int (match to_u32 b with Some e => a ^ e | None => 0 end)))
  | Arr h, (Int _ as n) | (Int _ as n), Arr h
  | Arr h, (Str _ as n) | (Str _ as n), Arr h
  | Arr h, (Arr _ as n) => Done (push s (Int (Sandbox.position_from (fun x => Value.eqb x n) 0 h)))
  | Str h, Int n | Int n, Str h =>
      Done (push s (Int (match to_u8 n with
                         | None => -1
                         | Some b => Sandbox.position_from (fun x => Byte.eqb x b) 0 h
                         end)))
  | Str h, Str n => Done (push s (Int (Util.string_index Byte.eqb h n)))
  | Int _, Blk _ | Blk _, Int _ => Panic "explicit panic"
  | Blk code, Blk a | Blk code, Str a | Str a, Blk code => find byte bint code a s
  | Blk code, Arr a | Arr a, Blk code => find Gval gid code a s
  end.

(** [Gs::left_paren]: [a[1..]] and [a[0]] panic on an empty sequence. *)
Definition left_paren (s : Gs) : outcome Gs :=
  p <- pop s ;; let (s, a) := p in
  let oob := Panic "range start index 1 out of range for slice of length 0" in
  match a with
  | Int n => Done (push s (Int (n - 1)))
  | Arr a => match a with [] => oob | x :: r => Done (push (push s (Arr r)) x) end
  | Str a => match a with [] => oob | x :: r => Done (push (push s (Str r)) (bint x)) end
  | Blk a => match a with [] => oob | x :: r => Done (push (push s (Blk r)) (bint x)) end
  end.

(** [Gs::right_paren]: [a.pop().unwrap()] panics on an empty sequence. *)
Definition right_paren (s : Gs) : outcome Gs :=
  p <- pop s ;; let (s, a) := p in
  let none := Panic "called `Option::unwrap()` on a `None` value" in
  match a with
  | Int n => Done (push s (Int (n + 1)))
  | Arr a => match vec_pop a with None => none | Some (r, l) => Done (push (push s (Arr r)) l) end
  | Str a => match vec_pop a with None => none | Some (r, l) => Done (push (push s (Str r)) (bint l)) end
  | Blk a => match vec_pop a with None => none | Some (r, l) => Done (push (push s (Blk r)) (bint l)) end
  end.

(** The [Gtoken::Symbol] arms of [Gs::run_builtin]; an unknown symbol does
    nothing. *)
Definition run_symbol (bs : list byte) (s : Gs) : outcome Gs :=
  if Sandbox.is_sym bs "~" then tilde s
  else if Sandbox.is_sym bs "`" then backtick s
  else if Sandbox.is_sym bs "!" then bang s
  else if Sandbox.is_sym bs "@" then at_sign s
  else if Sandbox.is_sym bs "$" then dollar s
  else if Sandbox.is_sym bs "+" then plus s
  else if Sandbox.is_sym bs "-" then minus s
  else if Sandbox.is_sym bs "*" then asterisk s
  else if Sandbox.is_sym bs "/" then slash s
  else if Sandbox.is_sym bs "%" then percent s
  else if Sandbox.is_sym bs "|" then vertical_bar s
  else if Sandbox.is_sym bs "&" then ampersand s
  else if Sandbox.is_sym bs "^" then caret s
  else if Sandbox.is_sym bs "[" then Done (set_lb s (lb s ++ [length (stack s)]))
  else if Sandbox.is_sym bs "]" then
    let (l, start) := match vec_pop (lb s) with
                      | Some (l, x) => (l, x)
                      | None => (lb s, 0%nat)
                      end in
    d <- drain_from (stack s) start ;;
    Done (push (set_stack (set_lb s l) (fst d)) (Arr (snd d)))
  else if bytes_eqb bs [Byte.x5c] then
    p <- pop2 s ;; let '(s, a, b) := p in Done (push (push s b) a)
  else if Sandbox.is_sym bs ";" then p <- pop s ;; Done (fst p)
  else if Sandbox.is_sym bs "<" then lteqgt Lt s
  else if Sandbox.is_sym bs "=" then lteqgt Eq s
  else if Sandbox.is_sym bs ">" then lteqgt Gt s
  else if Sandbox.is_sym bs "," then comma s
  else if Sandbox.is_sym bs "." then t <- top s ;; Done (push s t)
  else if Sandbox.is_sym bs "?" then question s
  else if Sandbox.is_sym bs "(" then left_paren s
  else if Sandbox.is_sym bs ")" then right_paren s
  else if Sandbox.is_sym bs "or" then
    p <- pop2 s ;; let '(s, a, b) := p in
    Done (push s (if Value.falsey a then b else a))
  else Done s.

(** [Gs::run_builtin].  A [Symbol] token whose lexeme is bound runs the
    binding first; there is no [return] after it, so the token's built-in
    meaning is then applied as well.  Other tokens never consult the
    variables.  The string arms push [bs[1..bs.len() - 1]], the bytes
    between the quotes with escapes left as they are: the parser model
    already carries exactly these bytes. *)
Definition run_builtin (t : Gtoken) (s : Gs) : outcome Gs :=
  s <- match t with
       | Symbol _ =>
           match vars s (Parse.lexeme t) with Some v => go v s | None => Done s end
       | _ => Done s
       end ;;
  match t with
  | IntLiteral bs =>
      match parse_bytes10 bs with
      | Some n => Done (push s (Int n))
      | None => Panic "called `Option::unwrap()` on a `None` value"
      end
  | SingleQuotedString bs | DoubleQuotedString bs => Done (push s (Str bs))
  | Symbol bs => run_symbol bs s
  | Block _ src => Done (push s (Blk src))
  | Comment _ => Panic "not yet implemented: builtin"
  end.

(** The token loop of [Gs::run]: [name = tokens.next().expect(..)],
    [t = self.top().clone()]. *)
Fixpoint run_tokens (tokens : list Gtoken) (s : Gs) : outcome Gs :=
  match tokens with
  | [] => Done s
  | t :: rest =>
      match t with
      | Symbol bs =>
          if Sandbox.is_sym bs ":" then
            match rest with
            | name :: rest' =>
                v <- top s ;;
                run_tokens rest' (set_vars s (Sandbox.insert_var (vars s) (Parse.lexeme name) v))
            | [] => Panic "parse error: assignment"
            end
          else s' <- run_builtin t s ;; run_tokens rest s'
      | _ => s' <- run_builtin t s ;; run_tokens rest s'
      end
  end.

End Ops.

(** [Gs::run]: a remainder after parsing is fatal. *)
Fixpoint run (fuel : nat) (code : list byte) (s : Gs) : outcome Gs :=
  match fuel with
  | O => OutOfFuel
  | Datatypes.S f =>
      let (rest, tokens) := Parse.parse_code code in
      match rest with
      | [] => run_tokens (run f) f tokens s
      | _ => Panic "parse error: has remainder"
      end
  end.

End Strict.

(** * Reference loops and sequences *)

(** [[0, 1, ..., m-1]] as [Int]s. *)
Definition ints_upto (m : nat) : list Gval := map (fun j => Int (Z.of_nat j)) (seq 0 m).

(** A loop of at most [k] iterations of [body] while [guard] holds, which
    stops with the current state, without an error, once [k] iterations
    are done; the reference for the counted loops of [lib.rs]. *)
Fixpoint at_most {S : Type} (k : nat) (guard : S -> bool) (body : S -> outcome (ctl S))
    (s : S) : outcome S :=
  match k with
  | O => Done s
  | Datatypes.S k' =>
      if guard s then
        match body s with
        | Done (Continue s') => at_most k' guard body s'
        | Done (Break s') => Done s'
        | Panic m => Panic m
        | OutOfFuel => OutOfFuel
        end
      else Done s
  end.

(** * Properties *)

(** ** Vectors *)

Lemma vec_pop_snoc {A} (l : list A) (x : A) : vec_pop (l ++ [x]) = Some (l, x).
Proof. unfold vec_pop. rewrite rev_app_distr. simpl. rewrite rev_involutive. reflexivity. Qed.

Lemma vec_last_snoc {A} (l : list A) (x : A) : vec_last (l ++ [x]) = Some x.
Proof. unfold vec_last. rewrite rev_app_distr. reflexivity. Qed.

Lemma vec_last_nil_inv {A} (l : list A) : vec_last l = None -> l = [].
Proof.
  unfold vec_last. case_eq (rev l); [|discriminate].
  intros Hr _. rewrite <- (rev_involutive l), Hr. reflexivity.
Qed.

Lemma vec_last_some_inv {A} (l : list A) (x : A) :
  vec_last l = Some x -> exists l', l = l' ++ [x].
Proof.
  unfold vec_last. case_eq (rev l); [discriminate|].
  intros y r Hr Hy. injection Hy as <-.
  exists (rev r). rewrite <- (rev_involutive l), Hr. reflexivity.
Qed.

Lemma nth_list_set {A} (l : list A) (i j : nat) (v d : A) :
  (i < length l)%nat ->
  nth j (list_set l i v) d = if Nat.eqb j i then v else nth j l d.
Proof.
  revert i j. induction l as [|x l IH]; intros i j Hi; simpl in Hi; [lia|].
  destruct i as [|i], j as [|j]; simpl; try reflexivity.
  apply IH. lia.
Qed.

Lemma length_list_set {A} (l : list A) (i : nat) (v : A) :
  length (list_set l i v) = length l.
Proof.
  revert i. induction l as [|x l IH]; intros [|i]; simpl; try rewrite IH; reflexivity.
Qed.

(** ** The sandboxed [pop] on a stack whose top is known *)

Lemma sandbox_set_lb_push s v w :
  Sandbox.set_lb (Sandbox.push s v) w = Sandbox.push (Sandbox.set_lb s w) v.
Proof. reflexivity. Qed.

Lemma sandbox_pop_push ml s v :
  Sandbox.pop ml (Sandbox.push s v) =
  (Sandbox.set_lb s (Sandbox.pop_walk ml (length (Sandbox.lb s)) 0 (Sandbox.lb s)
                       (S (length (Sandbox.stack s)))), Some v).
Proof.
  unfold Sandbox.pop. simpl.
  rewrite length_app, Nat.add_1_r, vec_pop_snoc. reflexivity.
Qed.

Lemma sandbox_pop_or_push ml s v d :
  Sandbox.pop_or ml (Sandbox.push s v) d =
  (Sandbox.set_lb s (Sandbox.pop_walk ml (length (Sandbox.lb s)) 0 (Sandbox.lb s)
                       (S (length (Sandbox.stack s)))), v).
Proof. unfold Sandbox.pop_or. rewrite sandbox_pop_push. reflexivity. Qed.

Lemma sandbox_pop_empty ml s :
  Sandbox.stack s = [] ->
  Sandbox.pop ml s =
  (Sandbox.set_unstable (Sandbox.set_lb s (Sandbox.pop_walk ml (length (Sandbox.lb s)) 0
                                             (Sandbox.lb s) 0)), None).
Proof. intros H. unfold Sandbox.pop. simpl. rewrite H. reflexivity. Qed.

(** ** Integer division and remainder *)

(** C7: in the sandboxed evaluator, [/] and [%] on two [Int] operands
    [a] and [b] push [Int 0] when [b] is zero, and otherwise the floor
    quotient [a / b] and the floor modulus [a mod b] (the remainder has the
    sign of [b]); both pop exactly the two operands. *)
Theorem sandbox_slash_percent_int ml runf fuel s0 a b :
  exists s1,
    Sandbox.stack s1 = Sandbox.stack s0 /\
    Sandbox.slash ml runf fuel (Sandbox.push (Sandbox.push s0 (Int a)) (Int b)) =
      Done (Sandbox.push s1 (Int (if b =? 0 then 0 else a / b))) /\
    Sandbox.percent ml runf (Sandbox.push (Sandbox.push s0 (Int a)) (Int b)) =
      Done (Sandbox.push s1 (Int (if b =? 0 then 0 else a mod b))) /\
    (b <> 0 ->
       a = b * (a / b) + a mod b /\
       (0 < b -> 0 <= a mod b < b) /\
       (b < 0 -> b < a mod b <= 0)).
Proof.
  set (w1 := Sandbox.pop_walk ml (length (Sandbox.lb s0)) 0 (Sandbox.lb s0)
               (S (S (length (Sandbox.stack s0))))).
  set (w2 := Sandbox.pop_walk ml (length w1) 0 w1 (S (length (Sandbox.stack s0)))).
  exists (Sandbox.set_lb s0 w2).
  split; [reflexivity|].
  unfold Sandbox.slash, Sandbox.percent.
  rewrite !sandbox_pop_or_push, sandbox_set_lb_push, !sandbox_pop_or_push.
  change (Sandbox.stack (Sandbox.push s0 (Int a))) with (Sandbox.stack s0 ++ [Int a]).
  rewrite length_app, Nat.add_1_r. fold w1. simpl Sandbox.lb. simpl Sandbox.stack. fold w2.
  split; [|split].
  - destruct (b =? 0); reflexivity.
  - destruct (b =? 0); reflexivity.
  - intros Hb. split; [apply Z.div_mod; exact Hb|].
    split; intros Hs; [apply Z.mod_pos_bound | apply Z.mod_neg_bound]; exact Hs.
Qed.

(** Witness: [-7 2 /] on an empty stack pushes [-4]. *)
Lemma sandbox_slash_percent_int_witness :
  (exists s1, Sandbox.stack s1 = [] /\
     Sandbox.slash 2000 (fun _ s => Done s) 1
       (Sandbox.push (Sandbox.push Sandbox.new (Int (-7))) (Int 2))
     = Done (Sandbox.push s1 (Int (-4)))) /\
  -7 = 2 * (-7 / 2) + -7 mod 2.
Proof.
  destruct (sandbox_slash_percent_int 2000 (fun _ s => Done s) 1 Sandbox.new (-7) 2)
    as [s1 [Hst [Hsl [_ Hfl]]]].
  split.
  - exists s1. split; [exact Hst | exact Hsl].
  - apply Hfl. discriminate.
Defined.

(** ** Stack picking with [$] *)

Ltac zcase :=
  repeat match goal with
  | |- context [Z.ltb ?a ?b] => destruct (Z.ltb_spec a b)
  | |- context [Z.leb ?a ?b] => destruct (Z.leb_spec a b)
  | |- context [Nat.ltb ?a ?b] => destruct (Nat.ltb_spec a b)
  end; simpl.

Lemma dollar_pick_eq {R} (L : nat) (n : Z) (pick : nat -> R) (none : R) :
  Z.of_nat L <= u64_max ->
  (if n <? -1 then
     match to_usize (- n - 2) with
     | Some i => if Nat.ltb i L then pick i else none
     | None => none
     end
   else if (0 <=? n) && (n <? Z.of_nat L) then
     match to_usize (Z.of_nat L - 1 - n) with
     | Some i => pick i
     | None => none
     end
   else none) =
  (if (0 <=? n) && (n <? Z.of_nat L) then pick (Z.to_nat (Z.of_nat L - 1 - n))
   else if (n <=? -2) && (- n - 2 <? Z.of_nat L) then pick (Z.to_nat (- n - 2))
   else none).
Proof.
  intros HL. unfold to_usize, u64_max in *.
  zcase; zcase; try lia; try reflexivity.
Qed.

(** C10: when [$] pops an [Int n] and [L] values remain, it pushes a copy
    of the value [n] places below the top when [0 <= n < L], a copy of
    the value at index [-n-2] from the bottom when [n <= -2] and
    [-n-2 < L], and nothing otherwise (in particular for [n = -1] and
    [n >= L]).  Both evaluators; a stack length fits a [usize]. *)
Theorem dollar_int ml runf runf' n :
  (forall s s1,
     Sandbox.pop ml s = (s1, Some (Int n)) ->
     Z.of_nat (length (Sandbox.stack s1)) <= u64_max ->
     Sandbox.dollar ml runf s =
       let L := Z.of_nat (length (Sandbox.stack s1)) in
       if (0 <=? n) && (n <? L) then
         Done (Sandbox.push s1 (nth (Z.to_nat (L - 1 - n)) (Sandbox.stack s1) empty_arr))
       else if (n <=? -2) && (- n - 2 <? L) then
         Done (Sandbox.push s1 (nth (Z.to_nat (- n - 2)) (Sandbox.stack s1) empty_arr))
       else Done s1) /\
  (forall s s1,
     Strict.pop s = Done (s1, Int n) ->
     Z.of_nat (length (Strict.stack s1)) <= u64_max ->
     Strict.dollar runf' s =
       let L := Z.of_nat (length (Strict.stack s1)) in
       if (0 <=? n) && (n <? L) then
         Done (Strict.push s1 (nth (Z.to_nat (L - 1 - n)) (Strict.stack s1) empty_arr))
       else if (n <=? -2) && (- n - 2 <? L) then
         Done (Strict.push s1 (nth (Z.to_nat (- n - 2)) (Strict.stack s1) empty_arr))
       else Done s1).
Proof.
  split; intros s s1 Hpop HL.
  - unfold Sandbox.dollar. rewrite Hpop.
    exact (dollar_pick_eq (length (Sandbox.stack s1)) n
             (fun i => Done (Sandbox.push s1 (nth i (Sandbox.stack s1) empty_arr)))
             (Done s1) HL).
  - unfold Strict.dollar. rewrite Hpop. simpl.
    exact (dollar_pick_eq (length (Strict.stack s1)) n
             (fun i => Done (Strict.push s1 (nth i (Strict.stack s1) empty_arr)))
             (Done s1) HL).
Qed.

(** Witness: [10 20 1$] copies [10]; [10 20 -2$] copies [10]. *)
Lemma dollar_int_witness :
  Sandbox.dollar 2000 (fun _ s => Done s)
    (Sandbox.push (Sandbox.push (Sandbox.push Sandbox.new (Int 10)) (Int 20)) (Int 1))
  = Done (Sandbox.push (Sandbox.push (Sandbox.push Sandbox.new (Int 10)) (Int 20)) (Int 10)) /\
  Strict.dollar (fun _ s => Done s)
    (Strict.push (Strict.push (Strict.push Strict.new (Int 10)) (Int 20)) (Int (-2)))
  = Done (Strict.push (Strict.push (Strict.push Strict.new (Int 10)) (Int 20)) (Int 10)).
Proof.
  split.
  - rewrite (proj1 (dollar_int 2000 (fun _ s => Done s) (fun _ s => Done s) 1) _
               (Sandbox.push (Sandbox.push Sandbox.new (Int 10)) (Int 20)));
      [reflexivity | reflexivity | vm_compute; discriminate].
  - rewrite (proj2 (dollar_int 2000 (fun _ s => Done s) (fun _ s => Done s) (-2)) _
               (Strict.push (Strict.push Strict.new (Int 10)) (Int 20)));
      [reflexivity | reflexivity | vm_compute; discriminate].
Defined.

(** ** Assignment *)

(** C8: the token [:] followed by a token [t] binds the lexeme of [t] to
    the current top of the stack and leaves the stack, the bracket stack
    and the output as they are.  With an empty stack the sandboxed
    evaluator goes on with the state unchanged, and the strict evaluator
    stops with the panic of [top()]. *)
Theorem assign_binds_top ml runf fuel runf' fuel' t rest s s' :
  Sandbox.run_tokens ml runf fuel (Symbol (bytes ":") :: t :: rest) s =
    Sandbox.run_tokens ml runf fuel rest
      (Sandbox.mkGs (Sandbox.stack s)
         (match vec_last (Sandbox.stack s) with
          | Some v => Sandbox.insert_var (Sandbox.vars s) (Parse.lexeme t) v
          | None => Sandbox.vars s
          end)
         (Sandbox.lb s) (Sandbox.rng_state s) (Sandbox.stable s) (Sandbox.output s)) /\
  Strict.run_tokens runf' fuel' (Symbol (bytes ":") :: t :: rest) s' =
    match vec_last (Strict.stack s') with
    | Some v =>
        Strict.run_tokens runf' fuel' rest
          (Strict.mkGs (Strict.stack s')
             (Sandbox.insert_var (Strict.vars s') (Parse.lexeme t) v) (Strict.lb s'))
    | None => Panic "stack underflow"
    end.
Proof.
  split.
  - simpl. unfold Sandbox.top.
    destruct (vec_last (Sandbox.stack s)); destruct s; reflexivity.
  - simpl. unfold Strict.top.
    destruct (vec_last (Strict.stack s')); reflexivity.
Qed.

(** ** Bound names and built-ins *)

(** Counterexample to C3: in the strict evaluator an integer literal is
    never looked up.  After [1 2:1;] binds the lexeme [1] to [2], the
    literal [1] still pushes [1]; the sandboxed evaluator runs the binding
    and pushes [2]. *)
Lemma strict_literal_not_looked_up :
  (exists s, Strict.run 10 (bytes "1 2:1;1") Strict.new = Done s /\
             Strict.vars s (bytes "1") = Some (Int 2) /\
             Strict.stack s = [Int 1; Int 1]) /\
  (exists s, Sandbox.run 2000 10 (bytes "1 2:1;1") Sandbox.new = Done s /\
             Sandbox.vars s (bytes "1") = Some (Int 2) /\
             Sandbox.stack s = [Int 1; Int 2]).
Proof.
  split; eexists; (split; [vm_compute; reflexivity | split; reflexivity]).
Qed.

(** C3 (amended): in the sandboxed evaluator a token whose lexeme is bound
    executes the binding ([Gs::go]: a block is run, any other value is
    pushed) and nothing else, so a binding replaces the built-in.  The
    strict evaluator consults the variables only for [Symbol] tokens: for
    any other token the resulting stack does not depend on the variable
    map. *)
Theorem bound_lexeme_runs_binding ml runf fuel runf' fuel' :
  (forall t v s,
     Sandbox.vars s (Parse.lexeme t) = Some v ->
     Sandbox.run_token ml runf fuel t s = Sandbox.go runf v s) /\
  (forall t s m,
     (forall bs, t <> Symbol bs) ->
     obind (Strict.run_builtin runf' fuel' t (Strict.set_vars s m))
       (fun s1 => Done (Strict.stack s1)) =
     obind (Strict.run_builtin runf' fuel' t s) (fun s1 => Done (Strict.stack s1))).
Proof.
  split.
  - intros t v s H. unfold Sandbox.run_token. rewrite H. reflexivity.
  - intros t s m Ht.
    destruct t as [bs|bs|bs|bs|inner src|bs]; try (exfalso; exact (Ht bs eq_refl));
      unfold Strict.run_builtin; simpl; try reflexivity.
    destruct (parse_bytes10 bs); reflexivity.
Qed.

(** Witness: [+] bound to [3], and the literal [1] with any map. *)
Lemma bound_lexeme_runs_binding_witness :
  Sandbox.run_token 2000 (fun _ s => Done s) 1 (Symbol (bytes "+"))
    (Sandbox.set_vars Sandbox.new
       (Sandbox.insert_var (fun _ => None) (bytes "+") (Int 3)))
  = Sandbox.go (fun _ s => Done s) (Int 3)
      (Sandbox.set_vars Sandbox.new
         (Sandbox.insert_var (fun _ => None) (bytes "+") (Int 3))) /\
  obind (Strict.run_builtin (fun _ s => Done s) 1 (IntLiteral (bytes "1"))
           (Strict.set_vars Strict.new
              (Sandbox.insert_var (fun _ => None) (bytes "1") (Int 5))))
    (fun s1 => Done (Strict.stack s1)) =
  obind (Strict.run_builtin (fun _ s => Done s) 1 (IntLiteral (bytes "1")) Strict.new)
    (fun s1 => Done (Strict.stack s1)).
Proof.
  split.
  - apply (proj1 (bound_lexeme_runs_binding 2000 (fun _ s => Done s) 1
                    (fun _ s => Done s) 1)).
    reflexivity.
  - apply (proj2 (bound_lexeme_runs_binding 2000 (fun _ s => Done s) 1
                    (fun _ s => Done s) 1)).
    intros bs. discriminate.
Defined.

(** ** The sandboxed entry point *)

(** Counterexample to C5: the final [puts] is run as a token, so a program
    that binds [puts] replaces it.  [:puts] on an empty input binds [puts]
    to the input string; the final [puts] pushes it and prints nothing. *)
Lemma golfscript_puts_rebound :
  Sandbox.golfscript 10 [] (bytes ":puts") = Done [].
Proof. vm_compute. reflexivity. Qed.

(** C5 (amended): [golfscript] pushes the input as a [Str] on a fresh
    state, runs the program with [max_loops = 2000], replaces the stack by
    one [Arr] holding it and runs the token [puts].  When the program left
    [puts] unbound, the result is the output so far, followed by the
    rendering of that [Arr] and a newline; when it bound [puts], the bound
    value is executed instead. *)
Theorem golfscript_final_puts f input source s1 :
  Sandbox.run 2000 (S f) source (Sandbox.push Sandbox.new (Str input)) = Done s1 ->
  Sandbox.golfscript (S f) input source =
    match Sandbox.vars s1 (bytes "puts") with
    | None =>
        Done (Sandbox.output s1 ++ from_utf8_lossy (Value.to_gs (Arr (Sandbox.stack s1)))
              ++ [Byte.x0a])
    | Some v =>
        s2 <- Sandbox.go (Sandbox.run 2000 f) v (Sandbox.set_stack s1 [Arr (Sandbox.stack s1)]) ;;
        Done (Sandbox.output s2)
    end.
Proof.
  intros H. unfold Sandbox.golfscript. rewrite H. cbn [obind].
  change (bytes "puts") with ["p"%byte; "u"%byte; "t"%byte; "s"%byte].
  destruct s1 as [st vs l r sb o]. simpl. unfold Sandbox.run_token. simpl.
  destruct (vs ["p"%byte; "u"%byte; "t"%byte; "s"%byte]) as [v|].
  - destruct (Sandbox.go _ v _); reflexivity.
  - simpl. rewrite app_assoc. reflexivity.
Qed.

(** Witness: [5 6+] on an empty input prints [11] and a newline. *)
Lemma golfscript_final_puts_witness :
  Sandbox.golfscript 1 [] (bytes "5 6+") = Done (bytes "11" ++ [Byte.x0a]).
Proof.
  rewrite (golfscript_final_puts 0 [] (bytes "5 6+")
             (match Sandbox.run 2000 1 (bytes "5 6+") (Sandbox.push Sandbox.new (Str [])) with
              | Done s => s
              | _ => Sandbox.new
              end)).
  - vm_compute. reflexivity.
  - vm_compute. reflexivity.
Defined.

(** ** The power guard *)

(** C4: the guard of [?] converts the base with [a.to_i32().unwrap()], so
    the sandboxed evaluator aborts on [2147483648 1?] instead of pushing a
    result; the strict evaluator pushes [2147483648].  (A negative base
    makes the logarithm NaN, so [-2 3?] pushes [-2] unchanged, not [-8].) *)
Theorem question_base_outside_i32 :
  Sandbox.golfscript 10 [] (bytes "2147483648 1?") =
    Panic "called `Option::unwrap()` on a `None` value" /\
  (exists s, Strict.run 10 (bytes "2147483648 1?") Strict.new = Done s /\
             Strict.stack s = [Int 2147483648]) /\
  Sandbox.golfscript 10 [] (bytes "-2 3?") = Done (bytes "-2" ++ [Byte.x0a]).
Proof.
  split; [|split].
  - vm_compute. reflexivity.
  - eexists. split; [vm_compute; reflexivity | reflexivity].
  - vm_compute. reflexivity.
Qed.

(** ** Ranges *)

Lemma map_seq_snoc (i k : nat) :
  map (fun j => Int (Z.of_nat j)) (seq i (S k)) =
  Int (Z.of_nat i) :: map (fun j => Int (Z.of_nat j)) (seq (S i) k).
Proof. reflexivity. Qed.

Lemma sandbox_range_loop ml n (m : nat) :
  m = Z.to_nat (Z.min n ml) ->
  forall fuel (i : nat) acc,
    (m - i < fuel)%nat -> (i <= m)%nat ->
    Sandbox.capped ml fuel (fun p : Z * list Gval => fst p <? n)
      (fun p => Done (Continue (fst p + 1, snd p ++ [Int (fst p)]))) (Z.of_nat i)
      (Z.of_nat i, acc)
    = Done (Z.of_nat m, acc ++ map (fun j => Int (Z.of_nat j)) (seq i (m - i))).
Proof.
  intros Hm fuel. induction fuel as [|f IH]; intros i acc Hf Hi; [lia|].
  simpl. destruct (Nat.eq_dec i m) as [<-|Hne].
  - rewrite Nat.sub_diag. simpl. rewrite app_nil_r.
    replace ((Z.of_nat i <? n) && (Z.of_nat i <? ml)) with false; [reflexivity|].
    symmetry. apply andb_false_iff.
    destruct (Z.ltb_spec (Z.of_nat i) n), (Z.ltb_spec (Z.of_nat i) ml); auto; lia.
  - replace ((Z.of_nat i <? n) && (Z.of_nat i <? ml)) with true.
    2:{ symmetry. apply andb_true_iff. split; apply Z.ltb_lt; lia. }
    replace (Z.of_nat i + 1) with (Z.of_nat (S i)) by lia.
    rewrite (IH (S i)); [|lia|lia].
    replace (m - i)%nat with (S (m - S i)) by lia.
    rewrite map_seq_snoc, <- app_assoc. reflexivity.
Qed.

Lemma sandbox_range_eq ml fuel n :
  (Z.to_nat (Z.min n ml) < fuel)%nat ->
  Sandbox.range ml fuel n = Done (ints_upto (Z.to_nat (Z.min n ml))).
Proof.
  intros Hf. unfold Sandbox.range.
  pose proof (sandbox_range_loop ml n (Z.to_nat (Z.min n ml)) eq_refl fuel 0 []) as E.
  cbn [Z.of_nat] in E. rewrite E by lia. rewrite Nat.sub_0_r. reflexivity.
Qed.

Lemma strict_range_loop n (m : nat) :
  m = Z.to_nat n ->
  forall k (i : nat) acc,
    (m - i < k)%nat -> (i <= m)%nat ->
    Strict.range k (Z.of_nat i) n acc
    = Done (acc ++ map (fun j => Int (Z.of_nat j)) (seq i (m - i))).
Proof.
  intros Hm k. induction k as [|k IH]; intros i acc Hk Hi; [lia|].
  simpl. destruct (Nat.eq_dec i m) as [<-|Hne].
  - rewrite Nat.sub_diag. simpl. rewrite app_nil_r.
    destruct (Z.ltb_spec (Z.of_nat i) n); [lia|reflexivity].
  - destruct (Z.ltb_spec (Z.of_nat i) n); [|lia].
    replace (Z.of_nat i + 1) with (Z.of_nat (S i)) by lia.
    rewrite (IH (S i)); [|lia|lia].
    replace (m - i)%nat with (S (m - S i)) by lia.
    rewrite map_seq_snoc, <- app_assoc. reflexivity.
Qed.

(** Counterexample to C9: in the sandboxed entry ([max_loops = 2000]),
    [2001,] yields only 2000 elements, so [2001,,] prints [2000]. *)
Lemma comma_range_capped :
  Sandbox.golfscript 3000 [] (bytes "2001,,") = Done (bytes "2000" ++ [Byte.x0a]).
Proof. vm_compute. reflexivity. Qed.

(** C9 (amended): in the sandboxed evaluator [,] pops an [Int n] and pushes
    [[0, 1, ..., m-1]] with [m = min(n, max_loops)] (empty when [m <= 0]);
    on an [Arr] or a [Str] it pushes the length.  The strict evaluator
    pushes [[0, 1, ..., n-1]] (given the fuel for its [n] iterations). *)
Theorem comma_int_seq ml runf fuel runf' fuel' s0 n xs bs :
  (Z.to_nat (Z.min n ml) < fuel)%nat ->
  (exists s1,
     Sandbox.stack s1 = Sandbox.stack s0 /\
     Sandbox.comma ml runf fuel (Sandbox.push s0 (Int n)) =
       Done (Sandbox.push s1 (Arr (ints_upto (Z.to_nat (Z.min n ml))))) /\
     Sandbox.comma ml runf fuel (Sandbox.push s0 (Arr xs)) =
       Done (Sandbox.push s1 (Int (Z.of_nat (length xs)))) /\
     Sandbox.comma ml runf fuel (Sandbox.push s0 (Str bs)) =
       Done (Sandbox.push s1 (Int (Z.of_nat (length bs))))) /\
  (forall s s1,
     Strict.pop s = Done (s1, Int n) ->
     (Z.to_nat n < fuel')%nat ->
     Strict.comma runf' fuel' s = Done (Strict.push s1 (Arr (ints_upto (Z.to_nat n))))).
Proof.
  intros Hf. split.
  - eexists. split; [|split; [|split]].
    2:{ unfold Sandbox.comma. rewrite sandbox_pop_push. cbn iota beta.
        rewrite sandbox_range_eq by exact Hf. reflexivity. }
    + reflexivity.
    + unfold Sandbox.comma. rewrite sandbox_pop_push. reflexivity.
    + unfold Sandbox.comma. rewrite sandbox_pop_push. reflexivity.
  - intros s s1 Hpop Hk. unfold Strict.comma. rewrite Hpop. simpl.
    pose proof (strict_range_loop n (Z.to_nat n) eq_refl fuel' 0 []) as E.
    cbn [Z.of_nat] in E. rewrite E by lia. rewrite Nat.sub_0_r. reflexivity.
Qed.

(** Witness: with [max_loops = 2], [3,] gives [[0 1]]; strictly [[0 1 2]]. *)
Lemma comma_int_seq_witness :
  (exists s1, Sandbox.stack s1 = [] /\
     Sandbox.comma 2 (fun _ s => Done s) 5 (Sandbox.push Sandbox.new (Int 3)) =
       Done (Sandbox.push s1 (Arr [Int 0; Int 1]))) /\
  Strict.comma (fun _ s => Done s) 5 (Strict.push Strict.new (Int 3)) =
    Done (Strict.push Strict.new (Arr [Int 0; Int 1; Int 2])).
Proof.
  destruct (comma_int_seq 2 (fun _ s => Done s) 5 (fun _ s => Done s) 5 Sandbox.new 3 [] []
              ltac:(vm_compute; lia)) as [[s1 [H1 [H2 _]]] H3].
  split.
  - exists s1. split; [exact H1 | exact H2].
  - apply H3; [reflexivity | vm_compute; lia].
Defined.

(** ** Loop caps *)

Lemma capped_at_most_from {S : Type} ml (guard : S -> bool) body :
  forall fuel loops s,
    0 <= loops -> (Z.to_nat (ml - loops) < fuel)%nat ->
    Sandbox.capped ml fuel guard body loops s = at_most (Z.to_nat (ml - loops)) guard body s.
Proof.
  intros fuel. induction fuel as [|f IH]; intros loops s Hl Hf; [lia|].
  simpl. destruct (Z.ltb_spec loops ml) as [Hlt|Hge].
  - replace (Z.to_nat (ml - loops)) with (Datatypes.S (Z.to_nat (ml - (loops + 1)))) by lia.
    simpl. rewrite andb_true_r. destruct (guard s); [|reflexivity].
    destruct (body s) as [[s'|s']| |]; try reflexivity.
    apply IH; lia.
  - replace (Z.to_nat (ml - loops)) with O by lia.
    rewrite andb_false_r. reflexivity.
Qed.

(** Counterexample to C6: [chunk] takes no loop cap.  With
    [max_loops = 2000], [1/] cuts an input of 2001 bytes into 2001
    pieces. *)
Lemma chunk_not_capped :
  Sandbox.golfscript 3000 (List.repeat "a"%byte 2001) (bytes "1/,")
    = Done (bytes "2001" ++ [Byte.x0a]).
Proof. vm_compute. reflexivity. Qed.

(** C6 (amended): every counted loop of the sandboxed evaluator ([capped]:
    times, [while], [until], [do], unfold, range, zip padding, the digits
    of [base]) behaves as a loop of at most [max_loops] iterations that
    then stops without an error; [chunk] is not among them. *)
Theorem capped_runs_at_most_max_loops {S : Type} ml fuel (guard : S -> bool) body s :
  (Z.to_nat ml < fuel)%nat ->
  Sandbox.capped ml fuel guard body 0 s = at_most (Z.to_nat ml) guard body s.
Proof.
  intros Hf. rewrite capped_at_most_from; [rewrite Z.sub_0_r; reflexivity | lia |].
  rewrite Z.sub_0_r. exact Hf.
Qed.

(** Witness: [5000{1+}*] from [0] stops after [max_loops = 3] rounds. *)
Lemma capped_runs_at_most_max_loops_witness :
  Sandbox.capped 3 5 (fun p : Z * Z => 0 <? fst p)
    (fun p => Done (Continue (fst p - 1, snd p + 1))) 0 (5000, 0) = Done (4997, 3).
Proof.
  rewrite (capped_runs_at_most_max_loops 3 5); [reflexivity | vm_compute; lia].
Defined.

(** ** Popping an empty stack *)

(** C2 (code bug): in the sandboxed evaluator a pop from an empty stack
    returns no value, leaves the stack empty and clears the [stable] flag,
    but [zip] and [base] unwrap that missing value and abort: with the
    input string dropped by [;], [;zip] and [;base] panic. *)
Theorem sandbox_empty_pop_aborts ml runf fuel s :
  Sandbox.stack s = [] ->
  snd (Sandbox.pop ml s) = None /\
  Sandbox.stack (fst (Sandbox.pop ml s)) = [] /\
  Sandbox.stable (fst (Sandbox.pop ml s)) = false /\
  Sandbox.run_symbol ml runf fuel (bytes "zip") s =
    Panic "called `Option::unwrap()` on a `None` value" /\
  Sandbox.run_symbol ml runf fuel (bytes "base") s =
    Panic "called `Option::unwrap()` on a `None` value" /\
  Sandbox.golfscript 10 [] (bytes ";zip") =
    Panic "called `Option::unwrap()` on a `None` value" /\
  Sandbox.golfscript 10 [] (bytes ";base") =
    Panic "called `Option::unwrap()` on a `None` value".
Proof.
  intros H.
  change (Sandbox.run_symbol ml runf fuel (bytes "zip") s) with (Sandbox.zip ml fuel s).
  change (Sandbox.run_symbol ml runf fuel (bytes "base") s) with (Sandbox.base ml fuel s).
  unfold Sandbox.zip, Sandbox.base. rewrite (sandbox_pop_empty ml s H).
  split; [reflexivity|]. split; [exact H|]. split; [reflexivity|].
  split; [reflexivity|]. split; [reflexivity|].
  split; vm_compute; reflexivity.
Qed.

(** Witness: the fresh state. *)
Lemma sandbox_empty_pop_aborts_witness :
  Sandbox.run_symbol 2000 (fun _ s => Done s) 1 (bytes "zip") Sandbox.new =
    Panic "called `Option::unwrap()` on a `None` value".
Proof.
  apply (sandbox_empty_pop_aborts 2000 (fun _ s => Done s) 1 Sandbox.new). reflexivity.
Defined.

(** ** The bracket walk of the sandboxed [pop] *)

Lemma dec_entry_length (l : list nat) (i : nat) :
  length (if Nat.ltb 0 (nth i l 0%nat) then list_set l i (nth i l 0%nat - 1)%nat else l)
  = length l.
Proof. destruct (Nat.ltb 0 (nth i l 0%nat)); [apply length_list_set | reflexivity]. Qed.

Lemma dec_entry_nth (l : list nat) (i j : nat) :
  (i < length l)%nat ->
  nth j (if Nat.ltb 0 (nth i l 0%nat) then list_set l i (nth i l 0%nat - 1)%nat else l) 0%nat
  = if Nat.eqb j i then (nth i l 0%nat - 1)%nat else nth j l 0%nat.
Proof.
  intros Hi. destruct (Nat.ltb_spec 0 (nth i l 0%nat)).
  - apply nth_list_set. exact Hi.
  - destruct (Nat.eqb_spec j i) as [->|]; [lia | reflexivity].
Qed.

Lemma pop_walk_spec ml :
  forall i loops l len,
    (i <= length l)%nat ->
    let r := Sandbox.pop_walk ml i loops l len in
    exists k,
      (k <= i)%nat /\
      (k = O \/ loops + Z.of_nat k <= ml) /\
      length r = length l /\
      (forall j, (i - k <= j < i)%nat ->
                 (len <= nth j l 0)%nat /\ nth j r 0%nat = (nth j l 0 - 1)%nat) /\
      (forall j, (j < i - k \/ i <= j)%nat -> nth j r 0%nat = nth j l 0%nat) /\
      ((k < i)%nat -> (nth (i - k - 1) l 0 < len)%nat \/ ml <= loops + Z.of_nat k).
Proof.
  intros i. induction i as [|i IH]; intros loops l len Hi r.
  - exists O. subst r. simpl. repeat split; intros; lia.
  - subst r. cbn [Sandbox.pop_walk].
    destruct (Nat.leb_spec len (nth i l 0%nat)) as [Hle|Hlt];
      destruct (Z.ltb_spec loops ml) as [Hml|Hml]; cbn [andb].
    2, 3, 4: exists O; repeat split; intros; try lia; try reflexivity;
      replace (S i - 0 - 1)%nat with i by lia; lia.
    set (l' := if Nat.ltb 0 (nth i l 0%nat) then list_set l i (nth i l 0%nat - 1)%nat else l).
    assert (Hlen : length l' = length l) by apply dec_entry_length.
    assert (Hnth : forall j, nth j l' 0%nat = if Nat.eqb j i then (nth i l 0 - 1)%nat else nth j l 0%nat)
      by (intros j; apply dec_entry_nth; lia).
    destruct (IH (loops + 1) l' len ltac:(lia)) as [k [Hk [Hloops [Hrl [Hvis [Hoth Hstop]]]]]].
    exists (S k). split; [lia|]. split; [lia|]. split; [rewrite Hrl; exact Hlen|].
    split; [|split].
    + intros j Hj. destruct (Nat.eq_dec j i) as [->|Hne].
      * split; [exact Hle|]. rewrite (Hoth i) by lia. rewrite Hnth, Nat.eqb_refl. reflexivity.
      * destruct (Hvis j ltac:(lia)) as [H1 H2].
        rewrite Hnth in H1, H2. rewrite (proj2 (Nat.eqb_neq j i) Hne) in H1, H2. auto.
    + intros j Hj. rewrite Hoth by lia. rewrite Hnth.
      rewrite (proj2 (Nat.eqb_neq j i)) by lia. reflexivity.
    + intros Hki. destruct (Hstop ltac:(lia)) as [H|H]; [left|right; lia].
      rewrite Hnth in H. rewrite (proj2 (Nat.eqb_neq (i - k - 1) i)) in H by lia.
      replace (S i - S k - 1)%nat with (i - k - 1)%nat by lia. exact H.
Qed.

Lemma sandbox_pop_lb ml s :
  Sandbox.lb (fst (Sandbox.pop ml s)) =
  Sandbox.pop_walk ml (length (Sandbox.lb s)) 0 (Sandbox.lb s) (length (Sandbox.stack s)).
Proof. unfold Sandbox.pop. simpl. destruct (vec_pop (Sandbox.stack s)) as [[st a]|]; reflexivity. Qed.

Lemma sandbox_pop_value ml s :
  Sandbox.stack (fst (Sandbox.pop ml s)) = removelast (Sandbox.stack s) /\
  snd (Sandbox.pop ml s) = vec_last (Sandbox.stack s).
Proof.
  destruct s as [st vs l r sb o]. unfold Sandbox.pop. simpl.
  destruct st as [|x st] using rev_ind.
  - split; reflexivity.
  - rewrite vec_pop_snoc, vec_last_snoc, removelast_last. split; reflexivity.
Qed.

(** Counterexample to C1: the walk visits at most [max_loops] entries.
    After 2001 [[] on a stack holding the input, [;] leaves the oldest
    bracket at [1], although it is not below the stack length [1]. *)
Lemma pop_walk_stops_at_max_loops :
  exists s,
    Sandbox.run 2000 10 (List.repeat "["%byte 2001 ++ [";"%byte])
      (Sandbox.push Sandbox.new (Str [])) = Done s /\
    Sandbox.stack s = [] /\
    Sandbox.lb s = 1%nat :: List.repeat 0%nat 2000.
Proof. eexists. split; [vm_compute; reflexivity | split; reflexivity]. Qed.

(** C1 (amended): the sandboxed [pop] removes the top of the stack (if any)
    after walking the bracket stack from its newest entry towards its
    oldest.  The walk visits [k] entries, [k] at most [max_loops]; each
    visited entry is [>=] the stack length before the pop and is
    decremented, floored at 0; every other entry is unchanged; the walk
    stops early only at an entry below the stack length or when
    [max_loops] entries have been visited. *)
Theorem sandbox_pop_bracket_walk ml s :
  let len := length (Sandbox.stack s) in
  let n := length (Sandbox.lb s) in
  let l := Sandbox.lb s in
  let l' := Sandbox.lb (fst (Sandbox.pop ml s)) in
  Sandbox.stack (fst (Sandbox.pop ml s)) = removelast (Sandbox.stack s) /\
  snd (Sandbox.pop ml s) = vec_last (Sandbox.stack s) /\
  exists k,
    (k <= n)%nat /\
    (k = O \/ Z.of_nat k <= ml) /\
    length l' = n /\
    (forall j, (n - k <= j < n)%nat ->
               (len <= nth j l 0)%nat /\ nth j l' 0%nat = (nth j l 0 - 1)%nat) /\
    (forall j, (j < n - k)%nat -> nth j l' 0%nat = nth j l 0%nat) /\
    ((k < n)%nat -> (nth (n - k - 1) l 0 < len)%nat \/ ml <= Z.of_nat k).
Proof.
  cbv zeta. destruct (sandbox_pop_value ml s) as [H1 H2].
  split; [exact H1|]. split; [exact H2|].
  rewrite sandbox_pop_lb.
  destruct (pop_walk_spec ml (length (Sandbox.lb s)) 0 (Sandbox.lb s)
              (length (Sandbox.stack s)) (le_n _))
    as [k [Hk [Hloops [Hrl [Hvis [Hoth Hstop]]]]]].
  exists k. split; [exact Hk|]. split; [lia|]. split; [exact Hrl|].
  split; [exact Hvis|]. split.
  - intros j Hj. apply Hoth. lia.
  - intros Hkn. destruct (Hstop Hkn) as [H|H]; [left; exact H | right; lia].
Qed.

(** * Further properties of the two evaluators *)

(** ** Stack helpers *)

Lemma sandbox_fold_push (vs : list Gval) : forall s,
  fold_left Sandbox.push vs s = Sandbox.set_stack s (Sandbox.stack s ++ vs).
Proof.
  induction vs as [|v vs IH]; intros s.
  - destruct s. simpl. rewrite app_nil_r. reflexivity.
  - simpl. rewrite IH. destruct s. simpl. rewrite <- app_assoc. reflexivity.
Qed.

Lemma sandbox_stack_pop_push ml s v :
  Sandbox.stack (fst (Sandbox.pop ml (Sandbox.push s v))) = Sandbox.stack s /\
  snd (Sandbox.pop ml (Sandbox.push s v)) = Some v.
Proof. rewrite sandbox_pop_push. split; reflexivity. Qed.

(** ** [stepped] against [run] *)

Lemma stepped_tokens_run_tokens ml f : forall toks s s',
  Sandbox.stepped_tokens ml f toks s = Done s' ->
  Sandbox.run_tokens ml (Sandbox.run ml f) f toks s = Done s'.
Proof.
  intros toks. remember (length toks) as n eqn:Hn.
  revert toks Hn. induction n as [n IH] using lt_wf_ind.
  intros [|t rest] Hn s s' H; [exact H|].
  simpl in Hn.
  destruct t as [bs|bs|bs|bs|inner src|bs]; simpl in H |- *;
    try (destruct (Sandbox.run_token ml (Sandbox.run ml f) f _ s); simpl in H |- *;
         [apply (IH (length rest)) with (toks := rest); [lia|reflexivity|exact H]
         | discriminate | discriminate]).
  destruct (Sandbox.is_sym bs ":").
  - destruct rest as [|name rest']; [discriminate|].
    destruct (Sandbox.top s) as [v|]; [|discriminate].
    apply (IH (length rest')) with (toks := rest'); [simpl in Hn; lia|reflexivity|exact H].
  - destruct (Sandbox.run_token ml (Sandbox.run ml f) f _ s); simpl in H |- *;
      [apply (IH (length rest)) with (toks := rest); [lia|reflexivity|exact H]
      | discriminate | discriminate].
Qed.

(** X1: [stepped] is the strict variant of [run]: whenever [stepped]
    finishes a program on a state, [run] finishes the same program on the
    same state with the same result. *)
Theorem stepped_refines_run ml fuel code s s' :
  Sandbox.stepped ml fuel code s = Done s' -> Sandbox.run ml fuel code s = Done s'.
Proof.
  destruct fuel as [|f]; [discriminate|].
  unfold Sandbox.stepped. cbn [Sandbox.run].
  destruct (Parse.parse_code code) as [rest toks].
  destruct rest; [apply stepped_tokens_run_tokens | discriminate].
Qed.

(** Witness: [1:a a] on a fresh state. *)
Lemma stepped_refines_run_witness :
  Sandbox.run 2000 5 (bytes "1:a a") Sandbox.new =
  Done (match Sandbox.stepped 2000 5 (bytes "1:a a") Sandbox.new with
        | Done s => s
        | _ => Sandbox.new
        end).
Proof.
  apply (stepped_refines_run 2000 5 (bytes "1:a a") Sandbox.new).
  vm_compute. reflexivity.
Defined.

(** X2: where [run] silently goes on, [stepped] panics: an assignment [:]
    on an empty stack (the binding is skipped by [run]), a [:] that is the
    last token (ignored by [run]), and a program that parses with a
    remainder (left unrun by [run]). *)
Theorem stepped_fatal_where_run_continues ml f s name rest code :
  (Sandbox.top s = None ->
   Sandbox.stepped_tokens ml f (Symbol (bytes ":") :: name :: rest) s
     = Panic "called `Option::unwrap()` on a `None` value" /\
   Sandbox.run_tokens ml (Sandbox.run ml f) f (Symbol (bytes ":") :: name :: rest) s
     = Sandbox.run_tokens ml (Sandbox.run ml f) f rest s) /\
  (Sandbox.stepped_tokens ml f [Symbol (bytes ":")] s = Panic "parse error: assignment" /\
   Sandbox.run_tokens ml (Sandbox.run ml f) f [Symbol (bytes ":")] s = Done s) /\
  (fst (Parse.parse_code code) <> [] ->
   Sandbox.stepped ml (S f) code s = Panic "parse error: has remainder" /\
   Sandbox.run ml (S f) code s = Done s).
Proof.
  split; [|split].
  - intros Htop. simpl. rewrite Htop. split; reflexivity.
  - split; reflexivity.
  - intros Hrest. unfold Sandbox.stepped. cbn [Sandbox.run].
    destruct (Parse.parse_code code) as [r toks]. simpl in Hrest.
    destruct r; [congruence|]. split; reflexivity.
Qed.

(** ** Random numbers *)

(** X3: [rand] with a positive [Int] bound [n] advances the generator
    state by one step of the 64-bit linear congruential generator
    [state * 1664525 + 1013904223 mod 2^64], and replaces the bound by the
    new state's remainder modulo [n], a number in [[0, n)]. *)
Theorem sandbox_rand_range ml s n :
  0 < n ->
  let s' := Sandbox.rand ml (Sandbox.push s (Int n)) in
  Sandbox.rng_state s' = (Sandbox.rng_state s * 1664525 + 1013904223) mod 2 ^ 64 /\
  0 <= Sandbox.rng_state s' < 2 ^ 64 /\
  Sandbox.stack s' = Sandbox.stack s ++ [Int (Z.rem (Sandbox.rng_state s') n)] /\
  0 <= Z.rem (Sandbox.rng_state s') n < n.
Proof.
  intros Hn. cbv zeta. unfold Sandbox.rand. rewrite sandbox_pop_push.
  replace (0 <? n) with true by (symmetry; apply Z.ltb_lt; exact Hn).
  simpl.
  assert (Hm : 0 <= (Sandbox.rng_state s * 1664525 + 1013904223) mod 2 ^ 64 < 2 ^ 64)
    by (apply Z.mod_pos_bound; lia).
  split; [reflexivity|]. split; [exact Hm|]. split; [reflexivity|].
  split; [apply Z.rem_nonneg; lia|].
  destruct (Z.rem_bound_pos _ n (proj1 Hm) Hn) as [_ H]. exact H.
Qed.

(** Witness: [rand] with bound [10] on a fresh state. *)
Lemma sandbox_rand_range_witness :
  let s' := Sandbox.rand 2000 (Sandbox.push Sandbox.new (Int 10)) in
  Sandbox.rng_state s' = (Sandbox.rng_state Sandbox.new * 1664525 + 1013904223) mod 2 ^ 64 /\
  0 <= Sandbox.rng_state s' < 2 ^ 64 /\
  Sandbox.stack s' = Sandbox.stack Sandbox.new ++ [Int (Z.rem (Sandbox.rng_state s') 10)] /\
  0 <= Z.rem (Sandbox.rng_state s') 10 < 10.
Proof. apply (sandbox_rand_range 2000 Sandbox.new 10). lia. Defined.

(** X4: [rand] on a bound that is not a positive [Int] (a non-positive
    [Int], an array, a string or a block) replaces it by [0] and leaves the
    generator state unchanged; on an empty stack it pushes [0]. *)
Theorem sandbox_rand_default ml s v :
  match v with Int n => n <= 0 | _ => True end ->
  Sandbox.stack (Sandbox.rand ml (Sandbox.push s v)) = Sandbox.stack s ++ [Int 0] /\
  Sandbox.rng_state (Sandbox.rand ml (Sandbox.push s v)) = Sandbox.rng_state s /\
  (Sandbox.stack s = [] ->
   Sandbox.stack (Sandbox.rand ml s) = [Int 0] /\
   Sandbox.rng_state (Sandbox.rand ml s) = Sandbox.rng_state s).
Proof.
  intros Hv. split; [|split].
  - unfold Sandbox.rand. rewrite sandbox_pop_push.
    destruct v as [n|a|a|a]; try reflexivity.
    replace (0 <? n) with false by (symmetry; apply Z.ltb_ge; exact Hv). reflexivity.
  - unfold Sandbox.rand. rewrite sandbox_pop_push.
    destruct v as [n|a|a|a]; try reflexivity.
    replace (0 <? n) with false by (symmetry; apply Z.ltb_ge; exact Hv). reflexivity.
  - intros He. unfold Sandbox.rand. rewrite (sandbox_pop_empty ml s He).
    simpl. rewrite He. split; reflexivity.
Qed.

(** Witness: [rand] with bound [-3] on a fresh state. *)
Lemma sandbox_rand_default_witness :
  Sandbox.stack (Sandbox.rand 2000 (Sandbox.push Sandbox.new (Int (-3))))
    = Sandbox.stack Sandbox.new ++ [Int 0] /\
  Sandbox.rng_state (Sandbox.rand 2000 (Sandbox.push Sandbox.new (Int (-3))))
    = Sandbox.rng_state Sandbox.new /\
  (Sandbox.stack Sandbox.new = [] ->
   Sandbox.stack (Sandbox.rand 2000 Sandbox.new) = [Int 0] /\
   Sandbox.rng_state (Sandbox.rand 2000 Sandbox.new) = Sandbox.rng_state Sandbox.new).
Proof. apply (sandbox_rand_default 2000 Sandbox.new (Int (-3))). simpl. lia. Defined.

(** ** Head and tail: [(] and [)] *)

(** X5: in the sandbox, [(] splits an array into its tail and its first
    element and [)] into its initial part and its last element; an empty
    array, string or block is consumed and nothing is pushed; an [Int] is
    decremented or incremented; on an empty stack [(] pushes [-1] and [)]
    pushes [1]. *)
Theorem sandbox_paren_split ml s x r :
  Sandbox.stack (Sandbox.left_paren ml (Sandbox.push s (Arr (x :: r))))
    = Sandbox.stack s ++ [Arr r; x] /\
  Sandbox.stack (Sandbox.right_paren ml (Sandbox.push s (Arr (r ++ [x]))))
    = Sandbox.stack s ++ [Arr r; x] /\
  (forall e, In e [Arr []; Str []; Blk []] ->
   Sandbox.stack (Sandbox.left_paren ml (Sandbox.push s e)) = Sandbox.stack s /\
   Sandbox.stack (Sandbox.right_paren ml (Sandbox.push s e)) = Sandbox.stack s) /\
  (forall n,
   Sandbox.stack (Sandbox.left_paren ml (Sandbox.push s (Int n))) = Sandbox.stack s ++ [Int (n - 1)] /\
   Sandbox.stack (Sandbox.right_paren ml (Sandbox.push s (Int n))) = Sandbox.stack s ++ [Int (n + 1)]) /\
  (Sandbox.stack s = [] ->
   Sandbox.stack (Sandbox.left_paren ml s) = [Int (-1)] /\
   Sandbox.stack (Sandbox.right_paren ml s) = [Int 1]).
Proof.
  unfold Sandbox.left_paren, Sandbox.right_paren.
  split; [|split; [|split; [|split]]].
  - rewrite sandbox_pop_push. simpl. rewrite <- app_assoc. reflexivity.
  - rewrite sandbox_pop_push. simpl. rewrite vec_pop_snoc. simpl.
    rewrite <- app_assoc. reflexivity.
  - intros e He. simpl in He.
    destruct He as [<-|[<-|[<-|[]]]]; rewrite sandbox_pop_push; split; reflexivity.
  - intros n. rewrite !sandbox_pop_push. split; reflexivity.
  - intros He. rewrite (sandbox_pop_empty ml s He). simpl. rewrite He. split; reflexivity.
Qed.

(** X6: in the strict evaluator, [(] and [)] abort when the popped operand
    is an empty array, string or block ([a[1..]] and [a.pop().unwrap()]). *)
Theorem strict_paren_empty_panics s s1 v :
  Strict.pop s = Done (s1, v) ->
  In v [Arr []; Str []; Blk []] ->
  Strict.left_paren s = Panic "range start index 1 out of range for slice of length 0" /\
  Strict.right_paren s = Panic "called `Option::unwrap()` on a `None` value".
Proof.
  intros Hp Hv. unfold Strict.left_paren, Strict.right_paren. rewrite Hp. simpl.
  simpl in Hv. destruct Hv as [<-|[<-|[<-|[]]]]; split; reflexivity.
Qed.

(** Witness: an empty array on a fresh strict state. *)
Lemma strict_paren_empty_panics_witness :
  Strict.left_paren (Strict.push Strict.new (Arr []))
    = Panic "range start index 1 out of range for slice of length 0" /\
  Strict.right_paren (Strict.push Strict.new (Arr []))
    = Panic "called `Option::unwrap()` on a `None` value".
Proof.
  apply (strict_paren_empty_panics (Strict.push Strict.new (Arr [])) Strict.new (Arr [])).
  - vm_compute. reflexivity.
  - simpl. left. reflexivity.
Defined.

(** ** Brackets *)

Lemma sandbox_open_bracket ml runf fuel s :
  Sandbox.run_symbol ml runf fuel (bytes "[") s
  = Done (Sandbox.set_lb s (Sandbox.lb s ++ [length (Sandbox.stack s)])).
Proof. reflexivity. Qed.

Lemma sandbox_close_bracket ml runf fuel s :
  Sandbox.run_symbol ml runf fuel (bytes "]") s
  = let (l, start) := match vec_pop (Sandbox.lb s) with
                      | Some (l, x) => (l, x)
                      | None => (Sandbox.lb s, 0%nat)
                      end in
    d <- drain_from (Sandbox.stack s) start ;;
    Done (Sandbox.push (Sandbox.set_stack (Sandbox.set_lb s l) (fst d)) (Arr (snd d))).
Proof. reflexivity. Qed.

Lemma sandbox_open_close ml runf fuel s vs :
  (s1 <- Sandbox.run_symbol ml runf fuel (bytes "[") s ;;
   Sandbox.run_symbol ml runf fuel (bytes "]") (fold_left Sandbox.push vs s1))
  = Done (Sandbox.push s (Arr vs)).
Proof.
  rewrite sandbox_open_bracket. cbn [obind].
  rewrite sandbox_close_bracket, sandbox_fold_push.
  destruct s as [st vs0 l r sb o]. simpl.
  rewrite vec_pop_snoc. unfold drain_from.
  replace (Nat.leb (length st) (length (st ++ vs))) with true
    by (symmetry; apply Nat.leb_le; rewrite length_app; lia).
  cbn [obind fst snd].
  rewrite firstn_app, skipn_app, Nat.sub_diag, firstn_all, skipn_all.
  simpl. rewrite app_nil_r. reflexivity.
Qed.

(** X7: in the sandbox, [[] followed by pushes of values [vs] and then []]
    leaves the state as it was before [[], with [Arr vs] pushed: the
    bracket stack is restored and everything pushed since [[] is
    collected.  A []] with no open bracket wraps the whole stack. *)
Theorem sandbox_bracket_collects ml runf fuel s vs :
  (s1 <- Sandbox.run_symbol ml runf fuel (bytes "[") s ;;
   Sandbox.run_symbol ml runf fuel (bytes "]") (fold_left Sandbox.push vs s1))
  = Done (Sandbox.push s (Arr vs)) /\
  (Sandbox.lb s = [] ->
   Sandbox.run_symbol ml runf fuel (bytes "]") s
   = Done (Sandbox.set_stack s [Arr (Sandbox.stack s)])).
Proof.
  split.
  - apply sandbox_open_close.
  - intros Hl. rewrite sandbox_close_bracket. rewrite Hl. simpl.
    destruct s as [st vs0 l r sb o]. simpl in *. subst l. reflexivity.
Qed.

(** X8: in the sandbox, []] aborts ([Vec::drain] out of range) whenever
    the newest bracket mark exceeds the stack height.  [%] mapping a block
    over an array drains the stack without lowering the bracket marks, so
    such a mark is reachable: [golfscript] aborts on the program
    [[1]{.[}%]]. *)
Theorem sandbox_close_bracket_panics ml runf fuel :
  (forall s l m,
   Sandbox.lb s = l ++ [m] -> (length (Sandbox.stack s) < m)%nat ->
   Sandbox.run_symbol ml runf fuel (bytes "]") s =
     Panic (slice_start_index_len_fail m (length (Sandbox.stack s)))) /\
  Sandbox.golfscript 10 [] (bytes "[1]{.[}%]") =
    Panic "range start index 3 out of range for slice of length 2".
Proof.
  split.
  - intros s l m Hl Hm. rewrite sandbox_close_bracket, Hl, vec_pop_snoc.
    unfold drain_from.
    replace (Nat.leb m (length (Sandbox.stack s))) with false
      by (symmetry; apply Nat.leb_gt; exact Hm).
    reflexivity.
  - vm_compute. reflexivity.
Qed.

(** ** The strict [pop] *)

(** X9: the strict [pop] aborts on an empty stack ("stack underflow"), and
    aborts with an arithmetic underflow whenever the stack is not empty
    and the newest bracket mark is [0]: its walk lowers the marks that are
    below the stack height.  So the strict evaluator aborts on [[1 2+]],
    which the sandbox runs to [[[3]]]. *)
Theorem strict_pop_panics :
  (forall s, Strict.stack s = [] -> Strict.pop s = Panic "stack underflow") /\
  (forall s l, Strict.lb s = l ++ [0%nat] -> Strict.stack s <> [] ->
   Strict.pop s = Panic "attempt to subtract with overflow") /\
  Strict.run 10 (bytes "[1 2+]") Strict.new = Panic "attempt to subtract with overflow" /\
  option_map Sandbox.stack
    (match Sandbox.run 2000 10 (bytes "[1 2+]") Sandbox.new with Done s => Some s | _ => None end)
  = Some [Arr [Int 3]].
Proof.
  split; [|split; [|split]].
  - intros s He. unfold Strict.pop. rewrite He.
    destruct (length (Strict.lb s)) as [|n]; simpl; rewrite ?Nat.ltb_irrefl;
      [reflexivity|].
    destruct (Nat.ltb_spec (nth n (Strict.lb s) 0%nat) 0); [lia|reflexivity].
  - intros s l Hl Hne. unfold Strict.pop. rewrite Hl, length_app. simpl.
    rewrite Nat.add_1_r. cbn [Strict.pop_walk].
    rewrite app_nth2 by lia. rewrite Nat.sub_diag. simpl.
    destruct (Strict.stack s) as [|x st]; [congruence|]. reflexivity.
  - vm_compute. reflexivity.
  - vm_compute. reflexivity.
Qed.

(** ** Integer division in the strict evaluator *)

(** X10: the strict [/] and [%] on two [Int] operands [a] and [b] push the
    quotient truncated towards zero and the remainder of that division
    (with the sign of [a]), and abort on a zero divisor. *)
Theorem strict_int_div_rem runf s s2 a b :
  Strict.pop2 s = Done (s2, Int a, Int b) ->
  Strict.slash runf s =
    (if b =? 0 then Panic "attempt to divide by zero"
     else Done (Strict.push s2 (Int (Z.quot a b)))) /\
  Strict.percent runf s =
    (if b =? 0 then Panic "attempt to divide by zero"
     else Done (Strict.push s2 (Int (Z.rem a b)))) /\
  (b <> 0 ->
   a = b * Z.quot a b + Z.rem a b /\
   Z.abs (Z.rem a b) < Z.abs b /\
   (0 <= a -> 0 <= Z.rem a b) /\
   (a <= 0 -> Z.rem a b <= 0)).
Proof.
  intros H. unfold Strict.slash, Strict.percent. rewrite H. cbn [obind].
  split; [reflexivity|]. split; [reflexivity|].
  intros Hb. split; [apply Z.quot_rem; exact Hb|].
  split; [apply Z.rem_bound_abs; exact Hb|].
  split; [intros Ha; apply Z.rem_nonneg; assumption|].
  intros Ha. apply Z.rem_nonpos; assumption.
Qed.

(** Witness: [-7] and [2] on a fresh strict state. *)
Lemma strict_int_div_rem_witness :
  Strict.slash (fun _ s => Done s) (Strict.push (Strict.push Strict.new (Int (-7))) (Int 2)) =
    (if 2 =? 0 then Panic "attempt to divide by zero"
     else Done (Strict.push Strict.new (Int (Z.quot (-7) 2)))) /\
  Strict.percent (fun _ s => Done s) (Strict.push (Strict.push Strict.new (Int (-7))) (Int 2)) =
    (if 2 =? 0 then Panic "attempt to divide by zero"
     else Done (Strict.push Strict.new (Int (Z.rem (-7) 2)))) /\
  (2 <> 0 ->
   -7 = 2 * Z.quot (-7) 2 + Z.rem (-7) 2 /\
   Z.abs (Z.rem (-7) 2) < Z.abs 2 /\
   (0 <= -7 -> 0 <= Z.rem (-7) 2) /\
   (-7 <= 0 -> Z.rem (-7) 2 <= 0)).
Proof.
  apply (strict_int_div_rem (fun _ s => Done s)
           (Strict.push (Strict.push Strict.new (Int (-7))) (Int 2)) Strict.new).
  vm_compute. reflexivity.
Defined.

(** ** Number bases *)

Lemma sandbox_pop_snoc ml s st v :
  Sandbox.stack s = st ++ [v] ->
  exists s', Sandbox.pop ml s = (s', Some v) /\ Sandbox.stack s' = st.
Proof.
  intros Hs. destruct (sandbox_pop_value ml s) as [H1 H2].
  rewrite Hs, removelast_last in H1. rewrite Hs, vec_last_snoc in H2.
  destruct (Sandbox.pop ml s) as [s' o]. simpl in *. subst o.
  exists s'. split; [reflexivity | exact H1].
Qed.

Lemma base_total_app b : forall l1 l2 t,
  Sandbox.base_total b t (l1 ++ l2) = (t' <- Sandbox.base_total b t l1 ;; Sandbox.base_total b t' l2).
Proof.
  induction l1 as [|d l1 IH]; intros l2 t; [reflexivity|].
  simpl. destruct (Value.unwrap_int d); simpl; [apply IH | reflexivity | reflexivity].
Qed.

Lemma base_digits_loop ml b body (Hb : 2 <= b)
  (Hbody : forall i acc, body (i, acc) = Done (Continue (i / b, acc ++ [Int (i mod b)]))) :
  forall m fuel loops i acc,
  0 <= i < b ^ Z.of_nat m -> 0 <= loops -> loops + Z.of_nat m <= ml -> (m < fuel)%nat ->
  exists ds,
    Sandbox.capped ml fuel (fun p : Z * list Gval => negb (fst p =? 0)) body
      loops (i, acc) = Done (0, acc ++ ds) /\
    Forall (fun d => exists k, d = Int k /\ 0 <= k < b) ds /\
    Sandbox.base_total b 0 (rev ds) = Done i.
Proof.
  induction m as [|m IH]; intros fuel loops i acc Hi Hl Hml Hf;
    (destruct fuel as [|f]; [lia|]); cbn [Sandbox.capped fst snd].
  - rewrite Z.pow_0_r in Hi. replace i with 0 by lia. simpl.
    exists []. rewrite app_nil_r. repeat split; constructor.
  - destruct (Z.eqb_spec i 0) as [->|Hi0].
    + simpl. exists []. rewrite app_nil_r. repeat split; constructor.
    + replace (loops <? ml) with true by (symmetry; apply Z.ltb_lt; lia).
      rewrite Hbody. simpl.
      assert (Hq : 0 <= i / b < b ^ Z.of_nat m).
      { split; [apply Z.div_pos; lia|].
        apply Z.div_lt_upper_bound; [lia|].
        rewrite Nat2Z.inj_succ, Z.pow_succ_r in Hi by lia. lia. }
      destruct (IH f (loops + 1) (i / b) (acc ++ [Int (i mod b)]) Hq ltac:(lia) ltac:(lia) ltac:(lia))
        as [ds [Hc [Hd Ht]]].
      exists (Int (i mod b) :: ds). rewrite Hc, <- app_assoc. split; [reflexivity|].
      split.
      * constructor; [|exact Hd]. exists (i mod b). split; [reflexivity|].
        apply Z.mod_pos_bound. lia.
      * simpl. rewrite base_total_app, Ht. simpl. f_equal.
        rewrite Z.mul_comm. symmetry. apply Z.div_mod. lia.
Qed.

(** X11: [base] round trip in the sandbox.  For a base [b >= 2] and an
    [Int n] with [|n| < b ^ max_loops] (at most [max_loops] digits),
    [n b base] replaces [n] and [b] by the array of the base-[b] digits
    of [|n|], most significant first, each an [Int] in [[0, b)]; and
    [b base] on that array gives back [|n|]. *)
Theorem sandbox_base_round_trip ml fuel s n b :
  2 <= b -> Z.abs n < b ^ ml -> (Z.to_nat ml < fuel)%nat ->
  exists ds s1 s2,
    Sandbox.base ml fuel (Sandbox.push (Sandbox.push s (Int n)) (Int b)) = Done s1 /\
    Sandbox.stack s1 = Sandbox.stack s ++ [Arr ds] /\
    Forall (fun d => exists k, d = Int k /\ 0 <= k < b) ds /\
    Sandbox.base ml fuel (Sandbox.push s1 (Int b)) = Done s2 /\
    Sandbox.stack s2 = Sandbox.stack s ++ [Int (Z.abs n)].
Proof.
  intros Hb Hn Hf.
  assert (Hml : 0 <= ml).
  { destruct (Z.ltb_spec ml 0) as [H|H]; [|exact H].
    rewrite Z.pow_neg_r in Hn by exact H. lia. }
  unfold Sandbox.base.
  destruct (sandbox_pop_snoc ml (Sandbox.push (Sandbox.push s (Int n)) (Int b))
              (Sandbox.stack s ++ [Int n]) (Int b) eq_refl) as [sa [Ea Ha]].
  rewrite Ea. cbn [Value.unwrap_int obind].
  destruct (sandbox_pop_snoc ml sa (Sandbox.stack s) (Int n) Ha) as [sb [Eb Hsb]].
  rewrite Eb.
  destruct (base_digits_loop ml b
              (fun p => if b =? 0 then Panic "attempt to divide by zero"
                        else Done (Continue (fst p / b, snd p ++ [Int (fst p mod b)]))) Hb
              ltac:(intros i acc; simpl; destruct (Z.eqb_spec b 0); [lia | reflexivity])
              (Z.to_nat ml) fuel 0 (Z.abs n) [])
    as [ds [Hc [Hd Ht]]].
  { rewrite Z2Nat.id by exact Hml. lia. }
  { lia. }
  { rewrite Z2Nat.id by exact Hml. lia. }
  { exact Hf. }
  unfold Sandbox.base_digits. rewrite Hc. cbn [obind snd app].
  exists (rev ds), (Sandbox.push sb (Arr (rev ds))).
  destruct (sandbox_pop_snoc ml (Sandbox.push (Sandbox.push sb (Arr (rev ds))) (Int b))
              (Sandbox.stack s ++ [Arr (rev ds)]) (Int b)
              ltac:(simpl; rewrite Hsb; reflexivity)) as [sc [Ec Hsc]].
  destruct (sandbox_pop_snoc ml sc (Sandbox.stack s) (Arr (rev ds)) Hsc) as [sd [Ed Hsd]].
  eexists. split; [reflexivity|]. split; [simpl; rewrite Hsb; reflexivity|].
  split; [apply Forall_rev; exact Hd|].
  rewrite Ec. cbn [Value.unwrap_int obind]. rewrite Ed. simpl Value.as_arr.
  rewrite Ht. cbn [obind]. split; [reflexivity|]. simpl. rewrite Hsd. reflexivity.
Qed.

(** Witness: [-1234 10 base] and back, with [max_loops = 2000]. *)
Lemma sandbox_base_round_trip_witness :
  exists ds s1 s2,
    Sandbox.base 2000 2001 (Sandbox.push (Sandbox.push Sandbox.new (Int (-1234))) (Int 10)) = Done s1 /\
    Sandbox.stack s1 = Sandbox.stack Sandbox.new ++ [Arr ds] /\
    Forall (fun d => exists k, d = Int k /\ 0 <= k < 10) ds /\
    Sandbox.base 2000 2001 (Sandbox.push s1 (Int 10)) = Done s2 /\
    Sandbox.stack s2 = Sandbox.stack Sandbox.new ++ [Int (Z.abs (-1234))].
Proof.
  apply (sandbox_base_round_trip 2000 2001 Sandbox.new (-1234) 10).
  - lia.
  - vm_compute. reflexivity.
  - vm_compute. lia.
Defined.

(** ** Assignment followed by a lookup *)

Lemma bytes_eqb_refl (a : list byte) : bytes_eqb a a = true.
Proof. induction a as [|x a IH]; [reflexivity|]. simpl. rewrite (Byte.byte_dec_lb (eq_refl x)). exact IH. Qed.

Lemma bytes_eqb_eq (a b : list byte) : bytes_eqb a b = true -> a = b.
Proof.
  revert b. induction a as [|x a IH]; intros [|y b] H; try discriminate; [reflexivity|].
  simpl in H. apply andb_prop in H. destruct H as [H1 H2].
  apply Byte.byte_dec_bl in H1. subst y. f_equal. apply IH. exact H2.
Qed.

(** X12: in the sandbox, [:t t] with a non-block value [v] on top of the
    stack binds the lexeme of [t] to [v] and then pushes a copy of [v]:
    a name reads back the value last assigned to it. *)
Theorem sandbox_assign_then_lookup ml runf fuel t rest s v :
  Sandbox.top s = Some v ->
  (forall bs, v <> Blk bs) ->
  t <> Symbol (bytes ":") ->
  Sandbox.run_tokens ml runf fuel (Symbol (bytes ":") :: t :: t :: rest) s
  = Sandbox.run_tokens ml runf fuel rest
      (Sandbox.push (Sandbox.set_vars s (Sandbox.insert_var (Sandbox.vars s) (Parse.lexeme t) v)) v).
Proof.
  intros Htop Hv Ht.
  set (s' := Sandbox.set_vars s (Sandbox.insert_var (Sandbox.vars s) (Parse.lexeme t) v)).
  assert (Hgo : Sandbox.run_token ml runf fuel t s' = Done (Sandbox.push s' v)).
  { unfold Sandbox.run_token. subst s'. simpl. unfold Sandbox.insert_var.
    rewrite bytes_eqb_refl. unfold Sandbox.go.
    destruct v; [reflexivity | reflexivity | reflexivity | exfalso; eapply Hv; reflexivity]. }
  cbn [Sandbox.run_tokens]. change (Sandbox.is_sym (bytes ":") ":") with true. cbv iota.
  rewrite Htop. fold s'.
  destruct t as [bs|bs|bs|bs|inner src|bs]; try (rewrite Hgo; reflexivity).
  destruct (Sandbox.is_sym bs ":") eqn:Hc.
  - exfalso. apply Ht. unfold Sandbox.is_sym in Hc. f_equal. apply bytes_eqb_eq. exact Hc.
  - rewrite Hgo. reflexivity.
Qed.

(** Witness: [1:x x] on a fresh state. *)
Lemma sandbox_assign_then_lookup_witness :
  Sandbox.run_tokens 2000 (fun _ s => Done s) 1
    [Symbol (bytes ":"); Symbol (bytes "x"); Symbol (bytes "x")]
    (Sandbox.push Sandbox.new (Int 1))
  = Sandbox.run_tokens 2000 (fun _ s => Done s) 1 []
      (Sandbox.push
         (Sandbox.set_vars (Sandbox.push Sandbox.new (Int 1))
            (Sandbox.insert_var (Sandbox.vars (Sandbox.push Sandbox.new (Int 1)))
               (Parse.lexeme (Symbol (bytes "x"))) (Int 1)))
         (Int 1)).
Proof.
  apply (sandbox_assign_then_lookup 2000 (fun _ s => Done s) 1 (Symbol (bytes "x")) []
           (Sandbox.push Sandbox.new (Int 1)) (Int 1)).
  - reflexivity.
  - intros bs. discriminate.
  - discriminate.
Defined.

(** ** Stack shuffles *)

Lemma sandbox_pop_nil ml s :
  Sandbox.stack s = [] ->
  exists s', Sandbox.pop ml s = (s', None) /\ Sandbox.stack s' = [].
Proof.
  intros Hs. destruct (sandbox_pop_value ml s) as [H1 H2].
  rewrite Hs in H1, H2. destruct (Sandbox.pop ml s) as [s' o]. simpl in *. subst o.
  exists s'. split; [reflexivity | exact H1].
Qed.

Lemma sandbox_swap_eq ml runf fuel s :
  Sandbox.run_symbol ml runf fuel [Byte.x5c] s =
  let (s1, b) := Sandbox.pop ml s in
  match b with
  | Some b =>
      let (s2, a) := Sandbox.pop ml s1 in
      match a with
      | Some a => Done (Sandbox.push (Sandbox.push s2 b) a)
      | None => Done (Sandbox.push s2 b)
      end
  | None => Done s1
  end.
Proof. reflexivity. Qed.

(** X13: in the sandbox, on a stack ending in [a b c], [@] leaves
    [b c a], [\] leaves [a c b] and [.] leaves [a b c c]; the values below
    are untouched. *)
Theorem sandbox_stack_shuffles ml runf fuel s st a b c :
  Sandbox.stack s = st ++ [a; b; c] ->
  Sandbox.stack (Sandbox.at_sign ml s) = st ++ [b; c; a] /\
  (exists s', Sandbox.run_symbol ml runf fuel [Byte.x5c] s = Done s' /\
              Sandbox.stack s' = st ++ [a; c; b]) /\
  Sandbox.stack (Sandbox.dup ml s) = st ++ [a; b; c; c].
Proof.
  intros Hs.
  assert (H0 : Sandbox.stack s = (st ++ [a; b]) ++ [c]) by (rewrite Hs, <- app_assoc; reflexivity).
  destruct (sandbox_pop_snoc ml s _ _ H0) as [s1 [E1 H1]].
  assert (H1' : Sandbox.stack s1 = (st ++ [a]) ++ [b]) by (rewrite H1, <- app_assoc; reflexivity).
  destruct (sandbox_pop_snoc ml s1 _ _ H1') as [s2 [E2 H2]].
  destruct (sandbox_pop_snoc ml s2 _ _ H2) as [s3 [E3 H3]].
  split; [|split].
  - unfold Sandbox.at_sign. rewrite E1, E2, E3. simpl. rewrite H3, <- !app_assoc. reflexivity.
  - rewrite sandbox_swap_eq, E1, E2. eexists. split; [reflexivity|].
    simpl. rewrite H2, <- !app_assoc. reflexivity.
  - unfold Sandbox.dup. rewrite E1. simpl. rewrite H1, <- !app_assoc. reflexivity.
Qed.

(** Witness: [1 2 3] on a fresh state. *)
Lemma sandbox_stack_shuffles_witness :
  let s := Sandbox.set_stack Sandbox.new [Int 1; Int 2; Int 3] in
  Sandbox.stack (Sandbox.at_sign 2000 s) = [] ++ [Int 2; Int 3; Int 1] /\
  (exists s', Sandbox.run_symbol 2000 (fun _ s => Done s) 1 [Byte.x5c] s = Done s' /\
              Sandbox.stack s' = [] ++ [Int 1; Int 3; Int 2]) /\
  Sandbox.stack (Sandbox.dup 2000 s) = [] ++ [Int 1; Int 2; Int 3; Int 3].
Proof.
  apply (sandbox_stack_shuffles 2000 (fun _ s => Done s) 1
           (Sandbox.set_stack Sandbox.new [Int 1; Int 2; Int 3]) [] (Int 1) (Int 2) (Int 3)).
  reflexivity.
Defined.

(** X14: the stack shuffles of the sandbox on short stacks: [@] fills the
    missing values with empty arrays ([[] [] []] on an empty stack,
    [[] c []] on [c], [b c []] on [b c]); [\] leaves a stack of at most
    one value as it is; [.] on an empty stack pushes two empty arrays. *)
Theorem sandbox_shuffles_underflow ml runf fuel s :
  (Sandbox.stack s = [] ->
   Sandbox.stack (Sandbox.at_sign ml s) = [Arr []; Arr []; Arr []] /\
   Sandbox.stack (Sandbox.dup ml s) = [Arr []; Arr []] /\
   (exists s', Sandbox.run_symbol ml runf fuel [Byte.x5c] s = Done s' /\ Sandbox.stack s' = [])) /\
  (forall c, Sandbox.stack s = [c] ->
   Sandbox.stack (Sandbox.at_sign ml s) = [Arr []; c; Arr []] /\
   (exists s', Sandbox.run_symbol ml runf fuel [Byte.x5c] s = Done s' /\ Sandbox.stack s' = [c])) /\
  (forall b c, Sandbox.stack s = [b; c] ->
   Sandbox.stack (Sandbox.at_sign ml s) = [b; c; Arr []]).
Proof.
  split; [|split].
  - intros Hs. destruct (sandbox_pop_nil ml s Hs) as [s1 [E1 H1]].
    unfold Sandbox.at_sign, Sandbox.dup. rewrite sandbox_swap_eq, E1. simpl.
    rewrite H1. split; [reflexivity|]. split; [reflexivity|].
    eexists. split; [reflexivity | exact H1].
  - intros c Hs.
    destruct (sandbox_pop_snoc ml s [] c Hs) as [s1 [E1 H1]].
    destruct (sandbox_pop_nil ml s1 H1) as [s2 [E2 H2]].
    unfold Sandbox.at_sign. rewrite sandbox_swap_eq, E1, E2. simpl.
    rewrite H2. split; [reflexivity|]. eexists. split; [reflexivity|]. simpl. rewrite H2. reflexivity.
  - intros b c Hs.
    destruct (sandbox_pop_snoc ml s [b] c Hs) as [s1 [E1 H1]].
    destruct (sandbox_pop_snoc ml s1 [] b H1) as [s2 [E2 H2]].
    destruct (sandbox_pop_nil ml s2 H2) as [s3 [E3 H3]].
    unfold Sandbox.at_sign. rewrite E1, E2, E3. simpl. rewrite H3. reflexivity.
Qed.

(** ** Conditionals on plain values *)

Lemma sandbox_pop_or_snoc ml s st v d :
  Sandbox.stack s = st ++ [v] ->
  exists s', Sandbox.pop_or ml s d = (s', v) /\ Sandbox.stack s' = st.
Proof.
  intros Hs. destruct (sandbox_pop_snoc ml s st v Hs) as [s' [E H]].
  exists s'. unfold Sandbox.pop_or. rewrite E. split; [reflexivity | exact H].
Qed.

Lemma sandbox_go_plain runf v s :
  (forall bs, v <> Blk bs) -> Sandbox.go runf v s = Done (Sandbox.push s v).
Proof. intros Hv. destruct v; try reflexivity. exfalso. eapply Hv. reflexivity. Qed.

(** X15: in the sandbox, with operands that are not blocks (blocks would
    be executed), [a b c if] leaves [b] if [a] is truthy and [c] otherwise;
    [a b and] leaves [b] if [a] is truthy and [a] otherwise; [a b or]
    leaves [a] if [a] is truthy and [b] otherwise; [a b xor] leaves the
    one truthy operand if exactly one is truthy and [0] otherwise. *)
Theorem sandbox_choice_ops ml runf fuel s st a b c :
  (forall x, In x [a; b; c] -> forall bs, x <> Blk bs) ->
  (Sandbox.stack s = st ++ [a; b; c] ->
   exists s', Sandbox.run_symbol ml runf fuel (bytes "if") s = Done s' /\
              Sandbox.stack s' = st ++ [if Value.truthy a then b else c]) /\
  (Sandbox.stack s = st ++ [a; b] ->
   (exists s', Sandbox.run_symbol ml runf fuel (bytes "and") s = Done s' /\
               Sandbox.stack s' = st ++ [if Value.truthy a then b else a]) /\
   (exists s', Sandbox.run_symbol ml runf fuel (bytes "or") s = Done s' /\
               Sandbox.stack s' = st ++ [if Value.truthy a then a else b]) /\
   (exists s', Sandbox.run_symbol ml runf fuel (bytes "xor") s = Done s' /\
               Sandbox.stack s' =
                 st ++ [if Value.truthy a && Value.falsey b then a
                        else if Value.falsey a && Value.truthy b then b
                        else Value.gbool false])).
Proof.
  intros Hplain.
  assert (Ha : forall bs, a <> Blk bs) by (apply Hplain; simpl; auto).
  assert (Hb : forall bs, b <> Blk bs) by (apply Hplain; simpl; auto).
  assert (Hc : forall bs, c <> Blk bs) by (apply Hplain; simpl; auto).
  split.
  - intros Hs.
    assert (H0 : Sandbox.stack s = (st ++ [a; b]) ++ [c]) by (rewrite Hs, <- app_assoc; reflexivity).
    destruct (sandbox_pop_or_snoc ml s _ _ (Value.gbool false) H0) as [s1 [E1 H1]].
    assert (H1' : Sandbox.stack s1 = (st ++ [a]) ++ [b]) by (rewrite H1, <- app_assoc; reflexivity).
    destruct (sandbox_pop_or_snoc ml s1 _ _ (Value.gbool false) H1') as [s2 [E2 H2]].
    destruct (sandbox_pop_or_snoc ml s2 _ _ (Value.gbool false) H2) as [s3 [E3 H3]].
    change (Sandbox.run_symbol ml runf fuel (bytes "if") s) with
      (let (s1, c) := Sandbox.pop_or ml s (Value.gbool false) in
       let (s2, b) := Sandbox.pop_or ml s1 (Value.gbool false) in
       let (s3, a) := Sandbox.pop_or ml s2 (Value.gbool false) in
       if Value.truthy a then Sandbox.go runf b s3 else Sandbox.go runf c s3).
    rewrite E1, E2, E3.
    destruct (Value.truthy a); rewrite sandbox_go_plain by assumption;
      eexists; (split; [reflexivity|]); simpl; rewrite H3; reflexivity.
  - intros Hs.
    assert (H0 : Sandbox.stack s = (st ++ [a]) ++ [b]) by (rewrite Hs, <- app_assoc; reflexivity).
    destruct (sandbox_pop_snoc ml s _ _ H0) as [s1 [E1 H1]].
    destruct (sandbox_pop_snoc ml s1 _ _ H1) as [s2 [E2 H2]].
    split; [|split].
    + change (Sandbox.run_symbol ml runf fuel (bytes "and") s) with
        (let (s1, b) := Sandbox.pop ml s in
         match b with
         | Some b =>
             let (s2, a) := Sandbox.pop ml s1 in
             match a with
             | Some a => Sandbox.go runf (if Value.truthy a then b else a) s2
             | None => Sandbox.go runf b s2
             end
         | None => Done (Sandbox.push s1 (Value.gbool false))
         end).
      rewrite E1, E2, sandbox_go_plain by (destruct (Value.truthy a); assumption).
      eexists. split; [reflexivity|]. simpl. rewrite H2. reflexivity.
    + change (Sandbox.run_symbol ml runf fuel (bytes "or") s) with
        (let (s1, b) := Sandbox.pop ml s in
         match b with
         | Some b =>
             let (s2, a) := Sandbox.pop ml s1 in
             match a with
             | Some a => Sandbox.go runf (if Value.truthy a then a else b) s2
             | None => Sandbox.go runf b s2
             end
         | None => Done (Sandbox.push s1 (Value.gbool false))
         end).
      rewrite E1, E2, sandbox_go_plain by (destruct (Value.truthy a); assumption).
      eexists. split; [reflexivity|]. simpl. rewrite H2. reflexivity.
    + destruct (sandbox_pop_or_snoc ml s _ _ (Value.gbool false) H0) as [t1 [F1 G1]].
      destruct (sandbox_pop_or_snoc ml t1 _ _ (Value.gbool false) G1) as [t2 [F2 G2]].
      change (Sandbox.run_symbol ml runf fuel (bytes "xor") s) with
        (let (s1, b) := Sandbox.pop_or ml s (Value.gbool false) in
         let (s2, a) := Sandbox.pop_or ml s1 (Value.gbool false) in
         Sandbox.go runf (if Value.truthy a && Value.falsey b then a
                          else if Value.falsey a && Value.truthy b then b
                          else Value.gbool false) s2).
      rewrite F1, F2, sandbox_go_plain.
      * eexists. split; [reflexivity|]. simpl. rewrite G2. reflexivity.
      * destruct (Value.truthy a && Value.falsey b); [assumption|].
        destruct (Value.falsey a && Value.truthy b); [assumption|].
        intros bs. discriminate.
Qed.

(** Witness: the operands [0 1 2]. *)
Lemma sandbox_choice_ops_witness :
  let s3 := Sandbox.set_stack Sandbox.new [Int 0; Int 1; Int 2] in
  (Sandbox.stack s3 = [] ++ [Int 0; Int 1; Int 2] ->
   exists s', Sandbox.run_symbol 2000 (fun _ s => Done s) 1 (bytes "if") s3 = Done s' /\
              Sandbox.stack s' = [] ++ [if Value.truthy (Int 0) then Int 1 else Int 2]) /\
  (Sandbox.stack s3 = [] ++ [Int 0; Int 1] ->
   (exists s', Sandbox.run_symbol 2000 (fun _ s => Done s) 1 (bytes "and") s3 = Done s' /\
               Sandbox.stack s' = [] ++ [if Value.truthy (Int 0) then Int 1 else Int 0]) /\
   (exists s', Sandbox.run_symbol 2000 (fun _ s => Done s) 1 (bytes "or") s3 = Done s' /\
               Sandbox.stack s' = [] ++ [if Value.truthy (Int 0) then Int 0 else Int 1]) /\
   (exists s', Sandbox.run_symbol 2000 (fun _ s => Done s) 1 (bytes "xor") s3 = Done s' /\
               Sandbox.stack s' =
                 [] ++ [if Value.truthy (Int 0) && Value.falsey (Int 1) then Int 0
                        else if Value.falsey (Int 0) && Value.truthy (Int 1) then Int 1
                        else Value.gbool false])).
Proof.
  apply (sandbox_choice_ops 2000 (fun _ s => Done s) 1
           (Sandbox.set_stack Sandbox.new [Int 0; Int 1; Int 2]) [] (Int 0) (Int 1) (Int 2)).
  intros x Hx bs. simpl in Hx. destruct Hx as [<-|[<-|[<-|[]]]]; discriminate.
Defined.

(** ** Sorting *)

Section SortFacts.
Variable T : Type.
Variable tcmp : T -> T -> comparison.
Variable le : T -> T -> Prop.
Hypothesis cmp_lt : forall x y, tcmp x y = Lt -> le x y.
Hypothesis cmp_ge : forall x y, tcmp x y <> Lt -> le y x.

Lemma insert_sorted_perm x l : Permutation (x :: l) (Util.insert_sorted T tcmp x l).
Proof.
  induction l as [|y l IH]; [reflexivity|]. simpl.
  destruct (tcmp x y); try reflexivity;
    (eapply perm_trans; [apply perm_swap | apply perm_skip; exact IH]).
Qed.

Lemma insert_sorted_hd z x l :
  HdRel le z l -> le z x -> HdRel le z (Util.insert_sorted T tcmp x l).
Proof.
  intros Hz Hzx. destruct l as [|y l]; simpl.
  - constructor. exact Hzx.
  - inversion Hz; subst. destruct (tcmp x y); constructor; assumption.
Qed.

Lemma insert_sorted_sorted x l : Sorted le l -> Sorted le (Util.insert_sorted T tcmp x l).
Proof.
  induction l as [|y l IH]; intros Hs; simpl.
  - constructor; constructor.
  - apply Sorted_inv in Hs. destruct Hs as [Hl Hy].
    destruct (tcmp x y) eqn:E.
    + constructor; [apply IH; exact Hl|].
      apply insert_sorted_hd; [exact Hy | apply cmp_ge; congruence].
    + constructor; [constructor; assumption | constructor; apply cmp_lt; exact E].
    + constructor; [apply IH; exact Hl|].
      apply insert_sorted_hd; [exact Hy | apply cmp_ge; congruence].
Qed.

Lemma sort_sorted_perm l : Sorted le (Util.sort tcmp l) /\ Permutation l (Util.sort tcmp l).
Proof.
  unfold Util.sort.
  assert (H : forall acc, Sorted le acc ->
            Sorted le (fold_left (fun acc x => Util.insert_sorted T tcmp x acc) l acc) /\
            Permutation (acc ++ l) (fold_left (fun acc x => Util.insert_sorted T tcmp x acc) l acc)).
  { induction l as [|x l IH]; intros acc Hacc; simpl.
    - rewrite app_nil_r. split; [exact Hacc | reflexivity].
    - destruct (IH (Util.insert_sorted T tcmp x acc) (insert_sorted_sorted x acc Hacc)) as [H1 H2].
      split; [exact H1|].
      eapply perm_trans; [|exact H2].
      eapply perm_trans; [apply Permutation_sym, Permutation_middle|].
      change (x :: acc ++ l) with ((x :: acc) ++ l).
      apply Permutation_app_tail. apply insert_sorted_perm. }
  destruct (H [] (Sorted_nil le)) as [H1 H2]. split; [exact H1 | exact H2].
Qed.

End SortFacts.

Lemma byte_sort_sorted_perm (bs : list byte) :
  let r := Util.sort (fun x y => Z.compare (bz x) (bz y)) bs in
  Sorted (fun x y => bz x <= bz y) r /\ Permutation bs r.
Proof.
  apply sort_sorted_perm.
  - intros x y H. cbv beta in *. apply Z.lt_le_incl. apply Z.compare_lt_iff. exact H.
  - intros x y H. cbv beta in *. apply (proj1 (Z.compare_ge_iff _ _)). exact H.
Qed.

(** X16: [$] on a string, in both evaluators, replaces it by its bytes
    in ascending order: the result is sorted and a permutation of the
    string. *)
Theorem dollar_sorts_string ml runf runf' s s' bs :
  (exists r,
     Sandbox.dollar ml runf (Sandbox.push s (Str bs)) = Done (Sandbox.push (fst (Sandbox.pop ml (Sandbox.push s (Str bs)))) (Str r)) /\
     Sandbox.stack (fst (Sandbox.pop ml (Sandbox.push s (Str bs)))) = Sandbox.stack s /\
     Sorted (fun x y => bz x <= bz y) r /\ Permutation bs r) /\
  (forall s1, Strict.pop s' = Done (s1, Str bs) ->
   exists r, Strict.dollar runf' s' = Done (Strict.push s1 (Str r)) /\
             Sorted (fun x y => bz x <= bz y) r /\ Permutation bs r).
Proof.
  destruct (byte_sort_sorted_perm bs) as [H1 H2]. split.
  - exists (Util.sort (fun x y => Z.compare (bz x) (bz y)) bs).
    unfold Sandbox.dollar. rewrite sandbox_pop_push.
    split; [reflexivity|]. split; [reflexivity|]. split; assumption.
  - intros s1 Hp. exists (Util.sort (fun x y => Z.compare (bz x) (bz y)) bs).
    unfold Strict.dollar. rewrite Hp. split; [reflexivity|]. split; assumption.
Qed.

(** ** Loops on plain values *)

Lemma while_plain_rounds ml runf which a b (Ha : forall bs, a <> Blk bs) (Hb : forall bs, b <> Blk bs) :
  forall k s,
  exists s',
    at_most k (fun _ => true)
      (fun s =>
         s1 <- Sandbox.go runf a s ;;
         let (s2, f) := Sandbox.pop ml s1 in
         match f with
         | Some f =>
             if Bool.eqb (Value.falsey f) which then Done (Break s2)
             else s3 <- Sandbox.go runf b s2 ;; Done (Continue s3)
         | None =>
             if negb which then Done (Break s2)
             else s3 <- Sandbox.go runf b s2 ;; Done (Continue s3)
         end) s = Done s' /\
    Sandbox.stack s' =
      Sandbox.stack s ++ (if Bool.eqb (Value.falsey a) which then [] else List.repeat b k).
Proof.
  induction k as [|k IH]; intros s.
  - exists s. split; [reflexivity|]. destruct (Bool.eqb _ _); symmetry; apply app_nil_r.
  - cbn [at_most]. rewrite (sandbox_go_plain runf a s Ha). cbn [obind].
    rewrite sandbox_pop_push.
    destruct (Bool.eqb (Value.falsey a) which) eqn:E.
    + eexists. split; [reflexivity|]. simpl. symmetry; apply app_nil_r.
    + rewrite sandbox_go_plain by exact Hb. cbn [obind].
      destruct (IH (Sandbox.push (Sandbox.set_lb s
                  (Sandbox.pop_walk ml (length (Sandbox.lb s)) 0 (Sandbox.lb s)
                     (S (length (Sandbox.stack s))))) b)) as [s' [H1 H2]].
      exists s'. split; [exact H1|]. rewrite H2. simpl. rewrite <- app_assoc. reflexivity.
Qed.

(** X17: in the sandbox, [a b while] with a condition [a] and a body [b]
    that are plain values (not blocks) either stops at once, leaving the
    stack as it was below [a], when [a] is falsey, or runs the body
    exactly [max_loops] times and then stops without an error, leaving
    [max_loops] copies of [b], when [a] is truthy.  [until] is the same
    with the roles of truthy and falsey exchanged. *)
Theorem sandbox_while_plain ml runf fuel which s a b :
  (forall bs, a <> Blk bs) -> (forall bs, b <> Blk bs) ->
  (Z.to_nat ml < fuel)%nat ->
  exists s',
    Sandbox.while_loop ml runf fuel which (Sandbox.push (Sandbox.push s a) b) = Done s' /\
    Sandbox.stack s' =
      Sandbox.stack s ++ (if Bool.eqb (Value.falsey a) which then [] else List.repeat b (Z.to_nat ml)).
Proof.
  intros Ha Hb Hf. unfold Sandbox.while_loop.
  destruct (sandbox_pop_or_snoc ml (Sandbox.push (Sandbox.push s a) b)
              (Sandbox.stack s ++ [a]) b empty_arr eq_refl) as [s1 [E1 H1]].
  rewrite E1.
  destruct (sandbox_pop_or_snoc ml s1 (Sandbox.stack s) a empty_arr H1) as [s2 [E2 H2]].
  rewrite E2.
  rewrite capped_at_most_from by (rewrite ?Z.sub_0_r; lia).
  rewrite Z.sub_0_r.
  destruct (while_plain_rounds ml runf which a b Ha Hb (Z.to_nat ml) s2) as [s' [H3 H4]].
  exists s'. split; [exact H3|]. rewrite H4, H2. reflexivity.
Qed.

(** Witness: [1 2 while] with [max_loops = 3]. *)
Lemma sandbox_while_plain_witness :
  exists s',
    Sandbox.while_loop 3 (fun _ s => Done s) 5 true
      (Sandbox.push (Sandbox.push Sandbox.new (Int 1)) (Int 2)) = Done s' /\
    Sandbox.stack s' =
      Sandbox.stack Sandbox.new ++
        (if Bool.eqb (Value.falsey (Int 1)) true then [] else List.repeat (Int 2) (Z.to_nat 3)).
Proof.
  apply (sandbox_while_plain 3 (fun _ s => Done s) 5 true Sandbox.new (Int 1) (Int 2)).
  - intros bs. discriminate.
  - intros bs. discriminate.
  - vm_compute. lia.
Defined.

(** X18: in the sandbox, collecting values with [[ ... ]] and dumping the
    array with [~] gives back the stack as it was after the pushes: the
    values [vs] pushed between the brackets end up on top of the original
    stack again. *)
Theorem sandbox_collect_dump ml runf fuel s vs :
  exists s',
    (s1 <- Sandbox.run_symbol ml runf fuel (bytes "[") s ;;
     s2 <- Sandbox.run_symbol ml runf fuel (bytes "]") (fold_left Sandbox.push vs s1) ;;
     Sandbox.run_symbol ml runf fuel (bytes "~") s2) = Done s' /\
    Sandbox.stack s' = Sandbox.stack s ++ vs.
Proof.
  pose proof (sandbox_open_close ml runf fuel s vs) as H.
  rewrite sandbox_open_bracket in H |- *. cbn [obind] in H |- *.
  rewrite H. cbn [obind].
  change (Sandbox.run_symbol ml runf fuel (bytes "~") (Sandbox.push s (Arr vs)))
    with (Sandbox.tilde ml runf (Sandbox.push s (Arr vs))).
  unfold Sandbox.tilde. rewrite sandbox_pop_push.
  eexists. split; [reflexivity|]. reflexivity.
Qed.

(** ** Transposition with [zip] *)

Lemma list_set_snoc {A} (l : list A) (x v : A) : list_set (l ++ [x]) (length l) v = l ++ [v].
Proof. induction l as [|y l IH]; [reflexivity|]. simpl. rewrite IH. reflexivity. Qed.

Lemma list_set_middle {A} (l r : list A) (x v : A) :
  list_set (l ++ x :: r) (length l) v = l ++ v :: r.
Proof. induction l as [|y l IH]; [reflexivity|]. simpl. rewrite IH. reflexivity. Qed.

Lemma map_nth_seq_shift {A B} (f : A -> B) (d : A) : forall (l : list A) k,
  map (fun y => f (nth (y - k) l d)) (seq k (length l)) = map f l.
Proof.
  induction l as [|e l IH]; intros k; [reflexivity|].
  simpl. rewrite Nat.sub_diag. f_equal.
  rewrite <- (IH (S k)). apply map_ext_in. intros y Hy. apply in_seq in Hy.
  replace (y - k)%nat with (S (y - S k)) by lia. reflexivity.
Qed.

Lemma zip_pad_full ml fuel blank y r :
  (y < length r)%nat -> (1 <= fuel)%nat -> Sandbox.zip_pad ml fuel blank y r = Done r.
Proof.
  intros Hy Hf. destruct fuel as [|f]; [lia|]. unfold Sandbox.zip_pad. simpl.
  replace (Nat.ltb (length r) (y + 1)) with false by (symmetry; apply Nat.ltb_ge; lia).
  reflexivity.
Qed.

Lemma zip_pad_grow ml fuel blank r :
  0 < ml -> (2 <= fuel)%nat ->
  Sandbox.zip_pad ml fuel blank (length r) r = Done (r ++ [blank]).
Proof.
  intros Hml Hf. destruct fuel as [|[|f]]; [lia|lia|]. unfold Sandbox.zip_pad.
  cbn [Sandbox.capped].
  replace (Nat.ltb (length r) (length r + 1)) with true by (symmetry; apply Nat.ltb_lt; lia).
  replace (0 <? ml) with true by (symmetry; apply Z.ltb_lt; exact Hml). cbn [andb].
  destruct f as [|f]; cbn [Sandbox.capped]; rewrite length_app; cbn [length];
    replace (Nat.ltb (length r + 1) (length r + 1)) with false by (symmetry; apply Nat.ltb_ge; lia);
    reflexivity.
Qed.

Lemma zip_row_first ml fuel : 0 < ml -> (2 <= fuel)%nat ->
  forall row pre,
    Sandbox.zip_row ml fuel (Arr []) (length pre) row (map (fun e => Arr [e]) pre)
    = Done (map (fun e => Arr [e]) (pre ++ row)).
Proof.
  intros Hml Hf. induction row as [|e row IH]; intros pre.
  - rewrite app_nil_r. reflexivity.
  - cbn [Sandbox.zip_row].
    rewrite <- (length_map (fun e => Arr [e]) pre) at 1.
    rewrite zip_pad_grow by assumption. cbn [obind].
    rewrite nth_error_app2 by (rewrite length_map; lia).
    rewrite length_map, Nat.sub_diag. cbn [nth_error Value.gpush obind app].
    rewrite <- (length_map (fun e => Arr [e]) pre) at 2.
    rewrite list_set_snoc.
    replace (Datatypes.S (length pre)) with (length (pre ++ [e]))
      by (rewrite length_app; simpl; lia).
    replace (map (fun e => Arr [e]) pre ++ [Arr [e]]) with (map (fun e => Arr [e]) (pre ++ [e]))
      by (rewrite map_app; reflexivity).
    rewrite IH, <- app_assoc. reflexivity.
Qed.

Lemma zip_row_next ml fuel blank : (1 <= fuel)%nat ->
  forall row cd cr, length cr = length row ->
    Sandbox.zip_row ml fuel blank (length cd) row (map Arr (cd ++ cr))
    = Done (map Arr (cd ++ map (fun p => fst p ++ [snd p]) (combine cr row))).
Proof.
  intros Hf. induction row as [|e row IH]; intros cd cr Hl.
  - destruct cr; [|discriminate]. reflexivity.
  - destruct cr as [|c cr]; [discriminate|]. cbn [Sandbox.zip_row].
    rewrite zip_pad_full by (try rewrite length_map, length_app; simpl; lia). cbn [obind].
    rewrite map_app, nth_error_app2 by (rewrite length_map; lia).
    rewrite length_map, Nat.sub_diag. cbn [map nth_error Value.gpush obind].
    rewrite <- (length_map Arr cd) at 2. rewrite list_set_middle.
    replace (Datatypes.S (length cd)) with (length (cd ++ [c ++ [e]]))
      by (rewrite length_app; simpl; lia).
    replace (map Arr cd ++ Arr (c ++ [e]) :: map Arr cr) with (map Arr ((cd ++ [c ++ [e]]) ++ cr))
      by (rewrite !map_app, <- app_assoc; reflexivity).
    rewrite IH by (simpl in Hl; lia). rewrite <- app_assoc. reflexivity.
Qed.

Lemma combine_snoc_seq {A} (G : nat -> list A) (d : A) : forall (row : list A) k,
  map (fun p => fst p ++ [snd p]) (combine (map G (seq k (length row))) row)
  = map (fun y => G y ++ [nth (y - k) row d]) (seq k (length row)).
Proof.
  induction row as [|e row IH]; intros k; [reflexivity|].
  cbn [length seq map combine fst snd]. rewrite Nat.sub_diag. f_equal.
  rewrite IH. apply map_ext_in. intros y Hy. apply in_seq in Hy.
  replace (y - k)%nat with (Datatypes.S (y - Datatypes.S k)) by lia. reflexivity.
Qed.

Lemma zip_rows_cols ml fuel n : (1 <= fuel)%nat ->
  forall rest done, Forall (fun r => length r = n) rest ->
    Sandbox.zip_rows ml fuel (Arr []) (map Arr rest)
      (map Arr (map (fun y => map (fun r => nth y r (Int 0)) done) (seq 0 n)))
    = Done (map Arr (map (fun y => map (fun r => nth y r (Int 0)) (done ++ rest)) (seq 0 n))).
Proof.
  intros Hf. induction rest as [|row rest IH]; intros done Hall.
  - rewrite app_nil_r. reflexivity.
  - inversion Hall as [|? ? Hlen Hrest]; subst n.
    cbn [map Sandbox.zip_rows Value.as_arr].
    change (map Arr (map (fun y => map (fun r => nth y r (Int 0)) done) (seq 0 (length row))))
      with (map Arr ([] ++ map (fun y => map (fun r => nth y r (Int 0)) done) (seq 0 (length row)))).
    rewrite (zip_row_next ml fuel (Arr []) Hf row [])
      by (rewrite length_map, length_seq; reflexivity).
    cbn [obind app]. rewrite (combine_snoc_seq _ (Int 0)).
    replace (map (fun y => map (fun r => nth y r (Int 0)) done ++ [nth (y - 0) row (Int 0)])
               (seq 0 (length row)))
      with (map (fun y => map (fun r => nth y r (Int 0)) (done ++ [row])) (seq 0 (length row)))
      by (apply map_ext; intros y; rewrite map_app, Nat.sub_0_r; reflexivity).
    rewrite IH by exact Hrest. rewrite <- app_assoc. reflexivity.
Qed.

Lemma sandbox_zip_rect ml fuel s rows n :
  0 < ml -> (2 <= fuel)%nat -> rows <> [] -> Forall (fun r => length r = n) rows ->
  exists s0,
    Sandbox.zip ml fuel (Sandbox.push s (Arr (map Arr rows)))
    = Done (Sandbox.push s0 (Arr (map (fun y => Arr (map (fun r => nth y r (Int 0)) rows)) (seq 0 n)))) /\
    Sandbox.stack s0 = Sandbox.stack s.
Proof.
  intros Hml Hf Hne Hall. destruct rows as [|r0 rest]; [congruence|].
  unfold Sandbox.zip. rewrite sandbox_pop_push. cbn [map Value.unwrap_arr obind Value.factory].
  inversion Hall as [|? ? Hlen Hrest]; subst n.
  cbn [Sandbox.zip_rows Value.as_arr].
  pose proof (zip_row_first ml fuel Hml Hf r0 []) as H1. cbn [length map app] in H1.
  rewrite H1. cbn [obind].
  replace (map (fun e => Arr [e]) r0)
    with (map Arr (map (fun y => map (fun r => nth y r (Int 0)) [r0]) (seq 0 (length r0)))).
  2:{ rewrite map_map. rewrite <- (map_nth_seq_shift (fun e => Arr [e]) (Int 0) r0 0).
      apply map_ext; intros y; rewrite Nat.sub_0_r; reflexivity. }
  rewrite (zip_rows_cols ml fuel (length r0) ltac:(lia) rest [r0] Hrest). cbn [obind app].
  rewrite map_map. eexists. split; reflexivity.
Qed.

Lemma transpose_twice (rows : list (list Gval)) n :
  Forall (fun r => length r = n) rows ->
  map (fun x => map (fun c => nth x c (Int 0))
                    (map (fun y => map (fun r => nth y r (Int 0)) rows) (seq 0 n)))
      (seq 0 (length rows)) = rows.
Proof.
  intros Hall.
  transitivity (map (fun r => r) rows); [|apply map_id].
  rewrite <- (map_nth_seq_shift (fun r => r) [] rows 0).
  apply map_ext_in. intros x Hx. apply in_seq in Hx. rewrite Nat.sub_0_r.
  rewrite map_map.
  assert (Hl : length (nth x rows []) = n).
  { rewrite Forall_forall in Hall. apply Hall, nth_In. lia. }
  transitivity (map (fun e => e) (nth x rows [])); [|apply map_id].
  rewrite <- (map_nth_seq_shift (fun e => e) (Int 0) (nth x rows []) 0).
  rewrite Hl. apply map_ext. intros y. rewrite Nat.sub_0_r.
  pose proof (map_nth (fun r => nth y r (Int 0)) rows [] x) as E.
  destruct y; exact E.
Qed.

Lemma transpose_rect (rows : list (list Gval)) n :
  Forall (fun c => length c = length rows)
    (map (fun y => map (fun r => nth y r (Int 0)) rows) (seq 0 n)).
Proof.
  apply Forall_forall. intros c Hc. apply in_map_iff in Hc as [y [<- _]].
  apply length_map.
Qed.

(** X19: [zip] on an array of [m >= 1] rows that are all arrays of length
    [n] pushes the transposed array: [n] rows, row [y] made of the [y]-th
    elements of the input rows in order. *)
Theorem sandbox_zip_transposes ml runf fuel s rows n :
  0 < ml -> (2 <= fuel)%nat -> rows <> [] -> Forall (fun r => length r = n) rows ->
  exists s',
    Sandbox.run_symbol ml runf fuel (bytes "zip") (Sandbox.push s (Arr (map Arr rows))) = Done s' /\
    Sandbox.stack s' =
      Sandbox.stack s ++ [Arr (map (fun y => Arr (map (fun r => nth y r (Int 0)) rows)) (seq 0 n))].
Proof.
  intros Hml Hf Hne Hall.
  change (Sandbox.run_symbol ml runf fuel (bytes "zip") (Sandbox.push s (Arr (map Arr rows))))
    with (Sandbox.zip ml fuel (Sandbox.push s (Arr (map Arr rows)))).
  destruct (sandbox_zip_rect ml fuel s rows n Hml Hf Hne Hall) as [s0 [-> Hs0]].
  eexists. split; [reflexivity|]. cbn. rewrite Hs0. reflexivity.
Qed.

Lemma sandbox_zip_transposes_witness :
  let s := Sandbox.new in
  exists s',
    Sandbox.run_symbol 2000 (fun _ s => Done s) 2 (bytes "zip")
      (Sandbox.push s (Arr (map Arr [[Int 1; Int 2; Int 3]; [Int 4; Int 5; Int 6]]))) = Done s' /\
    Sandbox.stack s' =
      Sandbox.stack s ++ [Arr (map (fun y => Arr (map (fun r => nth y r (Int 0))
                                                     [[Int 1; Int 2; Int 3]; [Int 4; Int 5; Int 6]]))
                                (seq 0 3))].
Proof.
  apply (sandbox_zip_transposes 2000 (fun _ s => Done s) 2 Sandbox.new
           [[Int 1; Int 2; Int 3]; [Int 4; Int 5; Int 6]] 3);
    [reflexivity | lia | discriminate | repeat constructor].
Defined.

(** X20: [zip] twice gives back a non-empty rectangular array of arrays
    whose rows are non-empty: the second [zip] undoes the first. *)
Theorem sandbox_zip_zip ml runf fuel s rows n :
  0 < ml -> (2 <= fuel)%nat -> rows <> [] -> (1 <= n)%nat -> Forall (fun r => length r = n) rows ->
  exists s',
    (s1 <- Sandbox.run_symbol ml runf fuel (bytes "zip") (Sandbox.push s (Arr (map Arr rows))) ;;
     Sandbox.run_symbol ml runf fuel (bytes "zip") s1) = Done s' /\
    Sandbox.stack s' = Sandbox.stack s ++ [Arr (map Arr rows)].
Proof.
  intros Hml Hf Hne Hn Hall.
  change (Sandbox.run_symbol ml runf fuel (bytes "zip") (Sandbox.push s (Arr (map Arr rows))))
    with (Sandbox.zip ml fuel (Sandbox.push s (Arr (map Arr rows)))).
  destruct (sandbox_zip_rect ml fuel s rows n Hml Hf Hne Hall) as [s0 [-> Hs0]].
  cbn [obind].
  change (Sandbox.run_symbol ml runf fuel (bytes "zip")) with (Sandbox.zip ml fuel).
  set (C := map (fun y => map (fun r => nth y r (Int 0)) rows) (seq 0 n)).
  replace (map (fun y => Arr (map (fun r => nth y r (Int 0)) rows)) (seq 0 n)) with (map Arr C)
    by (unfold C; rewrite map_map; reflexivity).
  assert (HC : C <> []) by (unfold C; destruct n; [lia | discriminate]).
  destruct (sandbox_zip_rect ml fuel s0 C (length rows) Hml Hf HC (transpose_rect rows n))
    as [s1 [-> Hs1]].
  eexists. split; [reflexivity|]. cbn. rewrite Hs1, Hs0. do 3 f_equal.
  rewrite <- (map_map (fun x => map (fun c => nth x c (Int 0)) C) Arr).
  unfold C. rewrite transpose_twice by exact Hall. reflexivity.
Qed.

Lemma sandbox_zip_zip_witness :
  exists s',
    (s1 <- Sandbox.run_symbol 2000 (fun _ s => Done s) 2 (bytes "zip")
             (Sandbox.push Sandbox.new (Arr (map Arr [[Int 1; Int 2; Int 3]; [Int 4; Int 5; Int 6]]))) ;;
     Sandbox.run_symbol 2000 (fun _ s => Done s) 2 (bytes "zip") s1) = Done s' /\
    Sandbox.stack s' = Sandbox.stack Sandbox.new ++ [Arr (map Arr [[Int 1; Int 2; Int 3]; [Int 4; Int 5; Int 6]])].
Proof.
  apply (sandbox_zip_zip 2000 (fun _ s => Done s) 2 Sandbox.new
           [[Int 1; Int 2; Int 3]; [Int 4; Int 5; Int 6]] 3);
    [reflexivity | lia | discriminate | lia | repeat constructor].
Defined.
